(** * DiffusionTimeCDF: the Python wrapper of the recurrence engine

    A shallow embedding of [src/src/pydiffusionCDF.py].  The class
    [DiffusionTimeCDF] subclasses a compiled extension type; the methods of
    the wrapper are embedded from the Python source, the methods it
    inherits are either fields of the interface [Kernel] or definitions
    marked "Modelled from the spec".

    Conventions.
    - Python objects are mutated in place and keep their mutations when an
      exception propagates, so a method is a function from a state to an
      [outcome] and the state reached.
    - The values of the array and [beta] are rationals: the wrapper only
      stores, copies and compares them.  Clock readings are IEEE binary64
      numbers, Rocq's primitive floats: the wrapper subtracts and compares
      them, and does so in double arithmetic.
    - The file system is a finite map from paths to files, a file is the
      list of its lines, and a line holds the value that was written, in
      typed form; writes to it succeed.
    - [time.process_time()], the CPU time of the process, is an oracle in
      the world: the k-th call returns the k-th reading.  The world also
      has a wall clock, which no method reads. *)

From Stdlib Require Import ZArith QArith List String Ascii Lia DecimalString DecimalZ.
From Stdlib Require Import PrimFloat.
From Stdlib Require Uint63.
From stdpp Require Import gmap strings sorting.

Local Open Scope string_scope.
Local Open Scope Z_scope.

(** ** Values *)

(** [np.quad]: the extended-precision numeric type of the array. *)
Abbreviation quad := Q (only parsing).

(** The exceptions the wrapper and its collaborators raise. *)
Inductive exn : Type :=
  | ValueError (msg : string)
  | TypeError
  | KeyError (key : string)
  | FileNotFoundError (path : string)
  | AssertionError.

(** How a call ends.  [OutOfModel]: the code goes on with a value the
    model has no type for (an attribute assigned a value outside its
    documented type); the model does not follow the run further and says
    nothing about it. *)
Inductive outcome (A : Type) : Type :=
  | Return (a : A)
  | Raise (e : exn)
  | OutOfModel.
Arguments Return {A} a.
Arguments Raise {A} e.
Arguments OutOfModel {A}.

(** ** The state-and-exception monad *)

Definition M (S A : Type) : Type := S -> outcome A * S.

Definition ret {S A} (a : A) : M S A := fun s => (Return a, s).
Definition raise {S A} (e : exn) : M S A := fun s => (Raise e, s).
Definition out_of_model {S A} : M S A := fun s => (OutOfModel, s).
Definition bind {S A B} (m : M S A) (k : A -> M S B) : M S B :=
  fun s => match m s with
           | (Return a, s') => k a s'
           | (Raise e, s') => (Raise e, s')
           | (OutOfModel, s') => (OutOfModel, s')
           end.
Definition get {S} : M S S := fun s => (Return s, s).

Declare Scope py_scope.
Delimit Scope py_scope with py.
Notation "x ← y ; z" := (bind y (fun x => z))
  (at level 20, y at level 100, z at level 200, only parsing) : py_scope.
Notation "' x ← y ; z" := (bind y (fun x => z))
  (at level 20, x pattern, y at level 100, z at level 200, only parsing) : py_scope.
Notation "x ;; z" := (bind x (fun _ => z))
  (at level 100, z at level 200, only parsing, right associativity) : py_scope.
Local Open Scope py_scope.

(** [for x in xs: body x] *)
Fixpoint for_each {S A} (xs : list A) (body : A -> M S unit) : M S unit :=
  match xs with
  | [] => ret tt
  | x :: xs' => body x ;; for_each xs' body
  end.

(** ** Files *)

(** A value of the JSON scalars record. *)
Inductive jvalue : Type :=
  | JNull
  | JInt (z : Z)
  | JFloat (x : Q)
  | JStr (s : string).

(** A cell of a CSV row; [CLabel p v] is the text [p + str(v)]. *)
Inductive cell : Type :=
  | CInt (z : Z)
  | CQuad (v : quad)
  | CFloat (x : Q)
  | CStr (s : string)
  | CLabel (prefix : string) (v : quad).

Inductive line : Type :=
  | LQuad (v : quad)
  | LJson (obj : gmap string jvalue)
  | LRow (cells : list cell).

(** ** The world: durable files and the clocks *)

(** [clock k] is the k-th reading of [time.process_time()], the CPU time
    of the process in seconds, and [reads] the number of readings taken
    so far.  [wall k] is the wall-clock time, in seconds, at the moment
    of that reading; the wrapper never asks for it. *)
Record world : Type := {
  fs : gmap string (list line);
  clock : nat -> float;
  wall : nat -> float;
  reads : nat
}.

Definition set_fs (f : gmap string (list line)) (w : world) : world :=
  {| fs := f; clock := clock w; wall := wall w; reads := reads w |}.

(** The world after one reading of the clock. *)
Definition tick (w : world) : world :=
  {| fs := fs w; clock := clock w; wall := wall w; reads := S (reads w) |}.

(** [time.process_time()] *)
Definition process_time : M world float :=
  fun w => (Return (clock w (reads w)), tick w).

(** A world operation run from inside a method of the object. *)
Definition in_world {O A} (m : M world A) : M (world * O) A :=
  fun s => let '(r, w') := m (fst s) in (r, (w', snd s)).

(** ** [os.path.join] and [str] *)

Definition startswith_sep (s : string) : bool :=
  match s with
  | String c _ => Ascii.eqb c "/"
  | EmptyString => false
  end.

Fixpoint endswith_sep (s : string) : bool :=
  match s with
  | EmptyString => false
  | String c s' =>
      match s' with
      | EmptyString => Ascii.eqb c "/"
      | String _ _ => endswith_sep s'
      end
  end.

(** [posixpath.join(a, b)] for two components. *)
Definition os_path_join (a b : string) : string :=
  if startswith_sep b then b
  else if (String.eqb a "" || endswith_sep a)%bool then a +:+ b
  else a +:+ "/" +:+ b.

(** [str(z)] for a Python [int]. *)
Definition str_int (z : Z) : string := NilZero.string_of_int (Z.to_int z).

(** The [id] attribute: [None] until the caller sets it, then an [int]
    (the documented type) or a [str]. *)
Inductive pyid : Type :=
  | IdInt (z : Z)
  | IdStr (s : string).

(** [f"{self.id}"] *)
Definition str_id (i : option pyid) : string :=
  match i with
  | None => "None"
  | Some (IdInt z) => str_int z
  | Some (IdStr s) => s
  end.

(** The JSON encoding of [self.id] by [json.dump]. *)
Definition json_of_id (i : option pyid) : jvalue :=
  match i with
  | None => JNull
  | Some (IdInt z) => JInt z
  | Some (IdStr s) => JStr s
  end.

(** ** File collaborators *)

(** Modelled from the spec: [fileIO.saveArrayQuad] is not among the
    sources.  Spec 6: the CDF value file is plain text, one
    extended-precision value per line, ordered by index, no header, and
    the numeric type round-trips exactly through text. *)
Definition saveArrayQuad (path : string) (arr : list quad) : M world unit :=
  fun w => (Return tt, set_fs (<[path := map LQuad arr]> (fs w)) w).

Fixpoint parse_quads (ls : list line) : option (list quad) :=
  match ls with
  | [] => Some []
  | LQuad v :: ls' =>
      match parse_quads ls' with
      | Some vs => Some (v :: vs)
      | None => None
      end
  | _ :: _ => None
  end.

(** Modelled from the spec: [fileIO.loadArrayQuad] is not among the
    sources.  It reads back what [saveArrayQuad] wrote, one value per
    line; a missing file or a line that is not a value is an error. *)
Definition loadArrayQuad (path : string) : M world (list quad) :=
  fun w => match fs w !! path with
           | None => (Raise (FileNotFoundError path), w)
           | Some ls =>
               match parse_quads ls with
               | Some vs => (Return vs, w)
               | None => (Raise (ValueError "could not convert string to quad"), w)
               end
           end.

(** [with open(path, "w+") as f: json.dump(vars, f)] *)
Definition json_dump_to (path : string) (vars : gmap string jvalue) : M world unit :=
  fun w => (Return tt, set_fs (<[path := [LJson vars]]> (fs w)) w).

(** [with open(path, "r") as file: vars = json.load(file)] *)
Definition json_load_from (path : string) : M world (gmap string jvalue) :=
  fun w => match fs w !! path with
           | None => (Raise (FileNotFoundError path), w)
           | Some [LJson vars] => (Return vars, w)
           | Some _ => (Raise (ValueError "JSONDecodeError"), w)
           end.

(** [vars[key]] *)
Definition getitem {S} (vars : gmap string jvalue) (key : string) : M S jvalue :=
  match vars !! key with
  | Some v => ret v
  | None => raise (KeyError key)
  end.

(** The record's values where the code uses them.  [vars["tMax"] + 1]
    and [vars["time"] + 1] feed [np.zeros] and a slice, which take
    integers, and the constructor takes a number for [beta]: another JSON
    type raises [TypeError].  [id] and [save_dir] are assigned whatever
    the record holds (source lines 372-373); a value outside the types
    the attributes have in this model leaves the model. *)
Definition as_int {S} (v : jvalue) : M S Z :=
  match v with JInt z => ret z | _ => raise TypeError end.

Definition as_float {S} (v : jvalue) : M S Q :=
  match v with
  | JInt z => ret (inject_Z z)
  | JFloat x => ret x
  | _ => raise TypeError
  end.

Definition as_id {S} (v : jvalue) : M S (option pyid) :=
  match v with
  | JNull => ret None
  | JInt z => ret (Some (IdInt z))
  | JStr s => ret (Some (IdStr s))
  | JFloat _ => out_of_model
  end.

Definition as_str {S} (v : jvalue) : M S string :=
  match v with JStr s => ret s | _ => out_of_model end.

(** ** numpy *)

(** [np.zeros(n, dtype=np.quad)].  An array of every non-negative length
    can be allocated: the memory of the machine and the width of numpy's
    index type are not modelled, as lists have no bound. *)
Definition np_zeros {S} (n : Z) : M S (list quad) :=
  if n <? 0 then raise (ValueError "negative dimensions are not allowed")
  else ret (replicate (Z.to_nat n) 0%Q).

(** The number of cells the slice [[:stop]] selects in an array of length
    [len]. *)
Definition slice_stop (len : nat) (stop : Z) : nat :=
  if stop <? 0 then Z.to_nat (Z.of_nat len + stop)
  else Nat.min (Z.to_nat stop) len.

(** [arr[:stop] = src]: the source must have the length of the slice, or
    length one, in which case it is broadcast. *)
Definition assign_prefix {S} (arr : list quad) (stop : Z) (src : list quad)
  : M S (list quad) :=
  let m := slice_stop (length arr) stop in
  if Nat.eqb (length src) m then ret (src ++ drop m arr)%list
  else match src with
       | [v] => ret (replicate m v ++ drop m arr)%list
       | _ => raise (ValueError "could not broadcast input array")
       end.

(** ** The compiled extension type *)

(** The part of [diffusionCDF.DiffusionTimeCDF] that neither the Python
    sources nor the spec determine: the generator of the random transition
    probabilities, the array update of one time step, and the two
    statistics.  [recurrence g beta t cdf] is the generator state and the
    array after the update that takes time [t] to [t + 1]. *)
Class Kernel : Type := {
  rng : Type;
  rng_fresh : rng;
  rng_seeded : Z -> rng;
  recurrence : rng -> Q -> Z -> list quad -> rng * list quad;
  gumbelVariance : Z -> list quad -> list quad -> list quad;
  probAndV : Z -> list quad -> quad -> quad * Q
}.

Section Engine.
Context {K : Kernel}.

(** The object: the fields of the extension type ([beta], [time], [tMax],
    [CDF] and the generator) and the attributes [__init__] adds. *)
Record DiffusionTimeCDF : Type := {
  beta : Q;
  time : Z;
  tMax : Z;
  CDF : list quad;
  gen : rng;
  _last_saved_time : float;
  _save_interval : float;
  id : option pyid;
  save_dir : string
}.

Definition St : Type := world * DiffusionTimeCDF.

Definition setTime (t : Z) (d : DiffusionTimeCDF) : DiffusionTimeCDF :=
  {| beta := beta d; time := t; tMax := tMax d; CDF := CDF d; gen := gen d;
     _last_saved_time := _last_saved_time d; _save_interval := _save_interval d;
     id := id d; save_dir := save_dir d |}.

Definition setCDF (c : list quad) (d : DiffusionTimeCDF) : DiffusionTimeCDF :=
  {| beta := beta d; time := time d; tMax := tMax d; CDF := c; gen := gen d;
     _last_saved_time := _last_saved_time d; _save_interval := _save_interval d;
     id := id d; save_dir := save_dir d |}.

Definition setGen (g : rng) (d : DiffusionTimeCDF) : DiffusionTimeCDF :=
  {| beta := beta d; time := time d; tMax := tMax d; CDF := CDF d; gen := g;
     _last_saved_time := _last_saved_time d; _save_interval := _save_interval d;
     id := id d; save_dir := save_dir d |}.

Definition set_last_saved_time (x : float) (d : DiffusionTimeCDF) : DiffusionTimeCDF :=
  {| beta := beta d; time := time d; tMax := tMax d; CDF := CDF d; gen := gen d;
     _last_saved_time := x; _save_interval := _save_interval d;
     id := id d; save_dir := save_dir d |}.

Definition set_id (i : option pyid) (d : DiffusionTimeCDF) : DiffusionTimeCDF :=
  {| beta := beta d; time := time d; tMax := tMax d; CDF := CDF d; gen := gen d;
     _last_saved_time := _last_saved_time d; _save_interval := _save_interval d;
     id := i; save_dir := save_dir d |}.

Definition set_save_dir (p : string) (d : DiffusionTimeCDF) : DiffusionTimeCDF :=
  {| beta := beta d; time := time d; tMax := tMax d; CDF := CDF d; gen := gen d;
     _last_saved_time := _last_saved_time d; _save_interval := _save_interval d;
     id := id d; save_dir := p |}.

(** [self.attr = v] and the setters of the extension type, as methods. *)
Definition update (f : DiffusionTimeCDF -> DiffusionTimeCDF) : M St unit :=
  fun s => (Return tt, (fst s, f (snd s))).

(** [setBetaSeed(seed)] *)
Definition setBetaSeed (seed : Z) : M St unit := update (setGen (rng_seeded seed)).

(** Modelled from the spec: the constructor of the extension type is not
    among the sources.  Spec 4.1: it allocates the zero-filled array of
    length [tMax + 1] and sets [time = 0].  The spec makes a positive
    [tMax] and a [beta] in the sampler's domain the caller's
    precondition and does not say what the constructor does otherwise;
    what is built here outside the precondition is not an engine the
    code is known to build.  [__init__] then records the clock, the save
    interval of [3600 * 6] seconds, and the defaults of [id] and
    [save_dir] (source lines 101-106). *)
Definition __init__ (b : Q) (tmax : Z) : M world DiffusionTimeCDF :=
  now ← process_time;
  ret {| beta := b; time := 0; tMax := tmax;
         CDF := replicate (Z.to_nat (tmax + 1)) 0%Q; gen := rng_fresh;
         _last_saved_time := now; _save_interval := 21600%float;
         id := None; save_dir := "." |}.

(** Modelled from the spec: [getSaveCDF] of the extension type is not
    among the sources.  Spec 4.1: it returns only the valid prefix of the
    array, the cells [0 .. time]. *)
Definition getSaveCDF (d : DiffusionTimeCDF) : list quad :=
  take (Z.to_nat (time d + 1)) (CDF d).

(** Modelled from the spec: [iterateTimeStep] of the extension type is
    not among the sources.  Spec 4.1: it draws from the random source,
    applies the recurrence update to the array and advances [time] by
    exactly 1. *)
Definition super_iterateTimeStep : M St unit :=
  fun s =>
    let d := snd s in
    let '(g, c) := recurrence (gen d) (beta d) (time d) (CDF d) in
    (Return tt, (fst s, setTime (time d + 1) (setCDF c (setGen g d)))).

(** ** Checkpoints (source lines 316-375) *)

Definition cdf_file_of (d : DiffusionTimeCDF) : string :=
  os_path_join (save_dir d) ("CDF" +:+ str_id (id d) +:+ ".txt").

Definition scalars_file_of (d : DiffusionTimeCDF) : string :=
  os_path_join (save_dir d) ("Scalars" +:+ str_id (id d) +:+ ".json").

(** The dictionary [vars] of [saveState]. *)
Definition scalars_of (d : DiffusionTimeCDF) : gmap string jvalue :=
  {[ "time" := JInt (time d);
     "beta" := JFloat (beta d);
     "tMax" := JInt (tMax d);
     "id" := json_of_id (id d);
     "save_dir" := JStr (save_dir d) ]}.

Definition saveState : M St unit :=
  '(_, self) ← get;
  let cdf_file := cdf_file_of self in
  let scalars_file := scalars_file_of self in
  in_world (saveArrayQuad cdf_file (getSaveCDF self)) ;;
  let vars := scalars_of self in
  in_world (json_dump_to scalars_file vars).

(** The file system after [saveState] on [d]. *)
Definition saved_fs (d : DiffusionTimeCDF) (f : gmap string (list line))
  : gmap string (list line) :=
  <[scalars_file_of d := [LJson (scalars_of d)]]>
    (<[cdf_file_of d := map LQuad (getSaveCDF d)]> f).

Definition fromFiles (cdf_file scalars_file : string) : M world DiffusionTimeCDF :=
  vars ← json_load_from scalars_file;
  load_cdf ← loadArrayQuad cdf_file;
  tmax ← (v ← getitem vars "tMax"; as_int v);
  cdf ← np_zeros (tmax + 1);
  t ← (v ← getitem vars "time"; as_int v);
  cdf ← assign_prefix cdf (t + 1) load_cdf;
  b ← (v ← getitem vars "beta"; as_float v);
  d ← __init__ b tmax;
  let d := setTime t d in
  i ← (v ← getitem vars "id"; as_id v);
  let d := set_id i d in
  p ← (v ← getitem vars "save_dir"; as_str v);
  let d := set_save_dir p d in
  let d := setCDF cdf d in
  ret d.

(** ** Comparison (source lines 114-129) *)

(** The other operand of [==]: an engine or any other Python object. *)
Inductive pyobject : Type :=
  | PyEngine (o : DiffusionTimeCDF)
  | PyOther.

(** [a == b] on the values [id] takes. *)
Definition id_eqb (a b : option pyid) : bool :=
  match a, b with
  | None, None => true
  | Some (IdInt x), Some (IdInt y) => x =? y
  | Some (IdStr x), Some (IdStr y) => String.eqb x y
  | _, _ => false
  end.

(** What [a == b] gives under [np.all] for arrays whose shapes cannot be
    broadcast: [False] in numpy before 1.25, a [ValueError] since. *)
Variable np_shape_mismatch : outcome bool.

(** [np.all(a == b)] for one-dimensional arrays: elementwise on equal
    lengths, an array of length one against every cell of the other. *)
Definition np_all_equal (a b : list quad) : outcome bool :=
  if Nat.eqb (length a) (length b) then
    Return (forallb (fun xy => Qeq_bool (fst xy) (snd xy)) (combine a b))
  else
    match a, b with
    | [x], _ => Return (forallb (fun y => Qeq_bool x y) b)
    | _, [y] => Return (forallb (fun x => Qeq_bool x y) a)
    | _, _ => np_shape_mismatch
    end.

Definition __eq__ (self : DiffusionTimeCDF) (other : pyobject) : outcome bool :=
  match other with
  | PyOther => Raise TypeError
  | PyEngine other =>
      if (id_eqb (id self) (id other)
          && String.eqb (save_dir self) (save_dir other)
          && Qeq_bool (beta self) (beta other)
          && (time self =? time other))%bool
      then
        match np_all_equal (CDF self) (CDF other) with
        | Return true => Return (tMax self =? tMax other)
        | Return false => Return false
        | Raise e => Raise e
        | OutOfModel => OutOfModel
        end
      else Return false
  end.

(** ** Evolution (source lines 187-233) *)

Definition capacity_message (tmax : Z) : string :=
  "Cannot evolve to time greater than tMax: " +:+ str_int tmax.

(** [(now - last) > interval] on doubles: the difference is rounded to
    the nearest double before it is compared.  The interval of the code
    is the integer [3600 * 6], which a double holds exactly. *)
Definition elapsed_exceeds (now last interval : float) : bool :=
  PrimFloat.ltb interval (PrimFloat.sub now last).

(** Source lines 200-202: the throttled checkpoint. *)
Definition throttled_save : M St unit :=
  now ← in_world process_time;
  '(_, self) ← get;
  if elapsed_exceeds now (_last_saved_time self) (_save_interval self) then
    saveState ;;
    now' ← in_world process_time;
    update (set_last_saved_time now')
  else ret tt.

(** Source lines 204-207: the capacity check and the inherited step. *)
Definition checked_step : M St unit :=
  '(_, self) ← get;
  if tMax self <=? time self then
    raise (ValueError (capacity_message (tMax self)))
  else super_iterateTimeStep.

(** The state in which [iterateTimeStep] reaches its capacity check: past
    the interval, after [saveState], a second reading of the clock and
    the assignment of it to [_last_saved_time]; otherwise after the one
    reading of the comparison. *)
Definition before_check (w : world) (d : DiffusionTimeCDF) : St :=
  if elapsed_exceeds (clock w (reads w)) (_last_saved_time d) (_save_interval d)
  then
    let '(w1, d1) := snd (saveState (tick w, d)) in
    (tick w1, set_last_saved_time (clock w1 (reads w1)) d1)
  else (tick w, d).

Definition iterateTimeStep : M St unit :=
  throttled_save ;;
  checked_step.

(** [while self.time < time: self.iterateTimeStep()], with the number of
    iterations still allowed as fuel. *)
Fixpoint evolveToTime_loop (fuel : nat) (t : Z) : M St unit :=
  match fuel with
  | O => ret tt
  | S fuel' =>
      '(_, self) ← get;
      if time self <? t then iterateTimeStep ;; evolveToTime_loop fuel' t
      else ret tt
  end.

(** Every iteration that does not raise advances [time] by one, so the
    distance to the target bounds the number of iterations
    ([evolveToTime_loop_fuel] below). *)
Definition evolveToTime (t : Z) : M St unit :=
  fun s => evolveToTime_loop (Z.to_nat (t - time (snd s))) t s.

(** [range(num)] *)
Definition range (num : Z) : list Z := map Z.of_nat (seq 0 (Z.to_nat num)).

Definition evolveTimesteps (num : Z) : M St unit :=
  for_each (range num) (fun _ => iterateTimeStep).

(** [n] calls of a method, one after the other. *)
Fixpoint calls (n : nat) (m : M St unit) : M St unit :=
  match n with
  | O => ret tt
  | S n' => m ;; calls n' m
  end.

(** ** Quantile search (source lines 235-277) *)

(** Modelled from the spec: [findQuantile] and [findQuantiles] of the
    extension type are not among the sources.  The stored vector is the
    complementary form [Z_B(n, t) = 1 - CDF(x, t)] (source lines 41-44),
    non-increasing across positions.  Spec 4.2: a quantile [q] denotes the
    threshold [1/q]; the search returns the position where the vector
    first falls at or below the threshold, found by a single monotonic
    sweep; the batched search sorts the quantiles in descending order and
    resolves all of them in one sweep, giving the positions in that order.
    The sweep below runs from the frontier cell [time] down to cell [0]
    and stops at the first cell above the threshold; the cell after it is
    the one reported, at position [x(n, time) = 2 n - time] (spec 3). *)
Definition exceeds (v q : quad) : bool := negb (Qle_bool v (1 / q)).

Fixpoint sweep (cells : list quad) (q : quad) : list quad :=
  match cells with
  | [] => []
  | v :: cells' => if exceeds v q then cells else sweep cells' q
  end.

Definition position (t : Z) (n : nat) : Z := 2 * Z.of_nat n - t.

(** The valid cells, from cell [time] down to cell [0]. *)
Definition frontier (d : DiffusionTimeCDF) : list quad := rev (getSaveCDF d).

Definition super_findQuantile (d : DiffusionTimeCDF) (q : quad) : Z :=
  position (time d) (length (sweep (frontier d) q)).

Fixpoint sweep_all (t : Z) (cells : list quad) (qs : list quad) : list Z :=
  match qs with
  | [] => []
  | q :: qs' =>
      let cells' := sweep cells q in
      position t (length cells') :: sweep_all t cells' qs'
  end.

Fixpoint insert_by (leb : Q -> Q -> bool) (x : Q) (l : list Q) : list Q :=
  match l with
  | [] => [x]
  | y :: l' => if leb x y then x :: l else y :: insert_by leb x l'
  end.

Fixpoint sort_by (leb : Q -> Q -> bool) (l : list Q) : list Q :=
  match l with
  | [] => []
  | x :: l' => insert_by leb x (sort_by leb l')
  end.

(** [l.sort()] *)
Definition sort_ascending : list Q -> list Q := sort_by Qle_bool.

Definition sort_descending : list Q -> list Q := sort_by (fun a b => Qle_bool b a).

Definition super_findQuantiles (d : DiffusionTimeCDF) (qs : list quad) : list Z :=
  sweep_all (time d) (frontier d) (sort_descending qs).

Definition findQuantile (self : DiffusionTimeCDF) (quantile : quad) : Z :=
  super_findQuantile self quantile.

Definition findQuantiles (self : DiffusionTimeCDF) (quantiles : list quad)
    (descending : bool) : list Z :=
  if descending then super_findQuantiles self quantiles
  else
    let returnVals := super_findQuantiles self quantiles in
    rev returnVals.

(** ** Statistics (source lines 279-314) *)

Definition getGumbelVariance (self : DiffusionTimeCDF) (nParticles : list quad)
  : list quad :=
  gumbelVariance (time self) (CDF self) nParticles.

Definition getProbandV (self : DiffusionTimeCDF) (quantile : quad) : quad * Q :=
  probAndV (time self) (CDF self) quantile.

(** ** Derived CSV outputs (source lines 377-490) *)

(** A file object opened for appending: rows written to it stay in its
    buffer until it is flushed or closed. *)
Record handle : Type := { h_path : string; h_buf : list line }.

(** [open(file, "a")]: the file is created when it does not exist. *)
Definition open_append (path : string) : M world handle :=
  fun w => (Return {| h_path := path; h_buf := [] |},
            set_fs (<[path := default [] (fs w !! path)]> (fs w)) w).

(** [csv.writer(f).writerow(row)] *)
Definition writerow (row : list cell) (f : handle) : handle :=
  {| h_path := h_path f; h_buf := (h_buf f ++ [LRow row])%list |}.

(** [f.flush()] *)
Definition flush (f : handle) : M world handle :=
  fun w => (Return {| h_path := h_path f; h_buf := [] |},
            set_fs (<[h_path f := (default [] (fs w !! h_path f) ++ h_buf f)%list]> (fs w)) w).

(** [f.close()] *)
Definition close (f : handle) : M world unit := flush f ;; ret tt.

(** A [for] loop that rebinds local variables [l]. *)
Fixpoint for_fold {S A L} (xs : list A) (body : A -> L -> M S L) (l : L) : M S L :=
  match xs with
  | [] => ret l
  | x :: xs' => l' ← body x l; for_fold xs' body l'
  end.

Definition evolveAndGetVariance_open (nParticles : list quad) (file : string)
    (append : bool) : M St handle :=
  f ← in_world (open_append file);
  if negb append then
    let header :=
      ([CStr "time"] ++ map (CLabel "") nParticles ++ map (CLabel "var") nParticles)%list in
    let f := writerow header f in
    in_world (flush f)
  else ret f.

Definition evolveAndGetVariance_body (nParticles : list quad) (t : Z) (f : handle)
  : M St handle :=
  evolveToTime t ;;
  '(_, self) ← get;
  let discrete := getGumbelVariance self nParticles in
  let quantiles := findQuantiles self nParticles false in
  let row := ([CInt (time self)] ++ map CInt quantiles ++ map CQuad discrete)%list in
  let f := writerow row f in
  in_world (flush f).

Definition evolveAndGetVariance (times : list Z) (nParticles : list quad)
    (file : string) (append : bool) : M St unit :=
  f ← evolveAndGetVariance_open nParticles file append;
  f ← for_fold times (evolveAndGetVariance_body nParticles) f;
  in_world (close f).

Definition evolveAndSaveQuantile_open (quantiles : list quad) (file : string)
    (append : bool) : M St handle :=
  f ← in_world (open_append file);
  if negb append then
    let header := ([CStr "time"] ++ map (CLabel "") quantiles)%list in
    ret (writerow header f)
  else ret f.

(** The loop rebinds [quantiles] to its sorted, reversed copy. *)
Definition evolveAndSaveQuantile_body (t : Z) (l : handle * list quad)
  : M St (handle * list quad) :=
  let '(f, quantiles) := l in
  evolveToTime t ;;
  let quantiles := sort_ascending quantiles in
  let quantiles := rev quantiles in
  '(_, self) ← get;
  let NthQuantiles := findQuantiles self quantiles false in
  let row := ([CInt (time self)] ++ map CInt NthQuantiles)%list in
  ret (writerow row f, quantiles).

Definition evolveAndSaveQuantile (time : list Z) (quantiles : list quad)
    (file : string) (append : bool) : M St unit :=
  f ← evolveAndSaveQuantile_open quantiles file append;
  '(f, _) ← for_fold time evolveAndSaveQuantile_body (f, quantiles);
  in_world (close f).

Definition evolveAndGetProbAndV_open (quantile : quad) (save_file : string)
  : M St handle :=
  (if Qle_bool 1 quantile then ret tt else raise AssertionError) ;;
  f ← in_world (open_append save_file);
  let header := [CStr "time"; CStr "prob"; CStr "v"] in
  ret (writerow header f).

Definition evolveAndGetProbAndV_body (quantile : quad) (t : Z) (f : handle)
  : M St handle :=
  evolveToTime t ;;
  '(_, self) ← get;
  let '(prob, v) := getProbandV self quantile in
  let row := [CInt (time self); CQuad prob; CFloat v] in
  let f := writerow row f in
  in_world (flush f).

Definition evolveAndGetProbAndV (quantile : quad) (time : list Z)
    (save_file : string) : M St unit :=
  f ← evolveAndGetProbAndV_open quantile save_file;
  f ← for_fold time (evolveAndGetProbAndV_body quantile) f;
  in_world (close f).

(** The three operations stopped after the first [k] iterations of the
    time loop, the file still open: the world then holds what a crash at
    that point leaves on disk, the handle what was written but not yet
    flushed. *)
Definition evolveAndGetVariance_interrupted (k : nat) (times : list Z)
    (nParticles : list quad) (file : string) (append : bool) : M St handle :=
  f ← evolveAndGetVariance_open nParticles file append;
  for_fold (take k times) (evolveAndGetVariance_body nParticles) f.

Definition evolveAndSaveQuantile_interrupted (k : nat) (time : list Z)
    (quantiles : list quad) (file : string) (append : bool)
  : M St (handle * list quad) :=
  f ← evolveAndSaveQuantile_open quantiles file append;
  for_fold (take k time) evolveAndSaveQuantile_body (f, quantiles).

Definition evolveAndGetProbAndV_interrupted (k : nat) (quantile : quad)
    (time : list Z) (save_file : string) : M St handle :=
  f ← evolveAndGetProbAndV_open quantile save_file;
  for_fold (take k time) (evolveAndGetProbAndV_body quantile) f.

End Engine.

Arguments DiffusionTimeCDF K : clear implicits.
Arguments St K : clear implicits.
Arguments pyobject K : clear implicits.

(** ** A kernel to run the wrapper on

    The theorems below hold for every [Kernel].  To evaluate the wrapper
    on concrete states one instance is needed: its generator state counts
    the draws, every draw is [1/2], and a step replaces each cell by the
    mean of itself and its left neighbour, the first cell staying as it
    is.  The statistics are constant. *)
Fixpoint half_step (left : quad) (cdf : list quad) : list quad :=
  match cdf with
  | [] => []
  | v :: cdf' => ((left + v) / 2)%Q :: half_step v cdf'
  end.

Definition sample_kernel : Kernel := {|
  rng := nat;
  rng_fresh := O;
  rng_seeded := Z.to_nat;
  recurrence := fun g _ _ cdf =>
    (S g, match cdf with [] => [] | v :: _ => half_step v cdf end);
  gumbelVariance := fun _ _ ns => map (fun _ => 0%Q) ns;
  probAndV := fun _ _ _ => (0%Q, 0%Q)
|}.

(** The double of a natural number of seconds below [2^63]. *)
Definition float_of_Z (z : Z) : float := PrimFloat.of_uint63 (Uint63.of_Z z).

(** Concrete states: clocks that advance one second per reading, from
    [start]; an engine with three cells at time [t], last saved at clock
    zero. *)
Definition sample_world (start : Z) : world :=
  {| fs := ∅;
     clock := fun k => float_of_Z (start + Z.of_nat k);
     wall := fun k => float_of_Z (start + Z.of_nat k);
     reads := O |}.

Definition sample_engine (t : Z) (i : option pyid) : DiffusionTimeCDF sample_kernel :=
  {| beta := 1; time := t; tMax := 2; CDF := [1; 1 # 2; 1 # 4]%Q; gen := rng_seeded 0;
     _last_saved_time := 0%float; _save_interval := 21600%float;
     id := i; save_dir := "." |}.

(** A world whose clock stands still, and a world holding a scalars
    record for time 2 next to a CDF file of a single value. *)
Definition frozen_world : world :=
  {| fs := ∅; clock := fun _ => 0%float; wall := fun _ => 0%float; reads := O |}.

Definition single_value_world : world :=
  {| fs := {[ "s.json" := [LJson (scalars_of (sample_engine 2 None))];
              "c.txt" := [LQuad 5] ]};
     clock := fun _ => 0%float; wall := fun _ => 0%float; reads := O |}.

(** The same record with the number 1.5 for [id], a value [saveState]
    never writes. *)
Definition float_id_world : world :=
  {| fs := {[ "s.json" := [LJson (<[ "id" := JFloat (3 # 2) ]>
                                    (scalars_of (sample_engine 2 None)))];
              "c.txt" := [LQuad 5] ]};
     clock := fun _ => 0%float; wall := fun _ => 0%float; reads := O |}.

(** A process that mostly waits: the engine was built at the first
    reading, and by the second reading one second of CPU time and 30000
    seconds of wall-clock time have passed. *)
Definition idle_world : world :=
  {| fs := ∅;
     clock := fun k => float_of_Z (Z.of_nat k);
     wall := fun k => float_of_Z (30000 * Z.of_nat k);
     reads := 1%nat |}.

(** A world whose clock reads 21600.7 seconds, for an engine last saved at
    0.7 seconds: the readings are more than 21600 seconds apart and their
    difference in double arithmetic is 21600. *)
Definition rounding_world : world :=
  {| fs := ∅;
     clock := fun _ => 0x1.5182ccccccccdp+14%float;
     wall := fun _ => 0x1.5182ccccccccdp+14%float;
     reads := O |}.

Definition rounding_engine : DiffusionTimeCDF sample_kernel :=
  set_last_saved_time 0x1.6666666666666p-1%float (sample_engine 2 (Some (IdInt 7))).

(** * Properties *)

Section Properties.
Context {K : Kernel}.
Implicit Types (w : world) (d : DiffusionTimeCDF K) (s : St K).

(** ** Checkpoint files *)

Lemma saveState_eq w d :
  saveState (w, d) = (Return tt, (set_fs (saved_fs d (fs w)) w, d)).
Proof. reflexivity. Qed.

Lemma throttled_save_eq w d :
  throttled_save (w, d) =
  (Return tt,
   if elapsed_exceeds (clock w (reads w)) (_last_saved_time d) (_save_interval d)
   then (tick (set_fs (saved_fs d (fs w)) (tick w)),
         set_last_saved_time (clock w (S (reads w))) d)
   else (tick w, d)).
Proof.
  unfold throttled_save, bind, in_world, process_time, get; simpl.
  destruct (elapsed_exceeds _ _ _); reflexivity.
Qed.

(** ** One time step *)

Lemma throttled_save_before_check w d :
  throttled_save (w, d) = (Return tt, before_check w d).
Proof.
  rewrite throttled_save_eq. unfold before_check. rewrite saveState_eq.
  destruct (elapsed_exceeds _ _ _); reflexivity.
Qed.

Lemma iterateTimeStep_eq w d :
  iterateTimeStep (w, d) = checked_step (before_check w d).
Proof.
  unfold iterateTimeStep, bind. now rewrite throttled_save_before_check.
Qed.

Lemma before_check_fields w d :
  let d' := snd (before_check w d) in
  time d' = time d /\ tMax d' = tMax d /\ CDF d' = CDF d /\ gen d' = gen d
  /\ beta d' = beta d /\ id d' = id d /\ save_dir d' = save_dir d
  /\ _save_interval d' = _save_interval d.
Proof.
  unfold before_check. rewrite saveState_eq.
  destruct (elapsed_exceeds _ _ _); simpl; repeat split.
Qed.

Lemma checked_step_full w d :
  tMax d <= time d ->
  checked_step (w, d) = (Raise (ValueError (capacity_message (tMax d))), (w, d)).
Proof.
  intros H. unfold checked_step, bind, get; simpl.
  destruct (Z.leb_spec (tMax d) (time d)); [reflexivity | lia].
Qed.

Lemma checked_step_room w d :
  time d < tMax d ->
  checked_step (w, d) = super_iterateTimeStep (w, d).
Proof.
  intros H. unfold checked_step, bind, get; simpl.
  destruct (Z.leb_spec (tMax d) (time d)); [lia | reflexivity].
Qed.

Lemma super_iterateTimeStep_fields w d :
  exists d', super_iterateTimeStep (w, d) = (Return tt, (w, d'))
             /\ time d' = time d + 1 /\ tMax d' = tMax d.
Proof.
  unfold super_iterateTimeStep; simpl.
  destruct (recurrence _ _ _ _) as [g c]. eexists; repeat split.
Qed.

(** A step below capacity returns, with [time] advanced by one. *)
Lemma iterateTimeStep_room s :
  time (snd s) < tMax (snd s) ->
  exists s', iterateTimeStep s = (Return tt, s')
             /\ time (snd s') = time (snd s) + 1 /\ tMax (snd s') = tMax (snd s).
Proof.
  destruct s as [w d]; simpl. intros H.
  rewrite iterateTimeStep_eq.
  destruct (before_check_fields w d) as (Ht & Hm & _).
  destruct (before_check w d) as [w1 d1]; simpl in *.
  rewrite checked_step_room by lia.
  destruct (super_iterateTimeStep_fields w1 d1) as (d' & -> & Ht' & Hm').
  exists (w1, d'); simpl. repeat split; lia.
Qed.

(** A step at capacity raises. *)
Lemma iterateTimeStep_full s :
  tMax (snd s) <= time (snd s) ->
  exists s', iterateTimeStep s = (Raise (ValueError (capacity_message (tMax (snd s)))), s').
Proof.
  destruct s as [w d]; simpl. intros H.
  rewrite iterateTimeStep_eq.
  destruct (before_check_fields w d) as (Ht & Hm & _).
  destruct (before_check w d) as [w1 d1]; simpl in *.
  rewrite checked_step_full by lia. rewrite Hm. eauto.
Qed.

(** C1: at [time = tMax] a call of [iterateTimeStep] raises the capacity
    error, and in the state it leaves [time] is still [tMax], the array
    is the one before the call and no probability was drawn. *)
Theorem iterateTimeStep_at_capacity w d :
  time d = tMax d ->
  fst (iterateTimeStep (w, d)) = Raise (ValueError (capacity_message (tMax d)))
  /\ time (snd (snd (iterateTimeStep (w, d)))) = tMax d
  /\ CDF (snd (snd (iterateTimeStep (w, d)))) = CDF d
  /\ gen (snd (snd (iterateTimeStep (w, d)))) = gen d.
Proof.
  intros H. rewrite iterateTimeStep_eq.
  destruct (before_check_fields w d) as (Ht & Hm & Hc & Hg & _).
  destruct (before_check w d) as [w1 d1]; simpl in *.
  rewrite checked_step_full by lia. simpl.
  rewrite Hm, Ht, Hc, Hg. auto.
Qed.

(** C6, as the code has it: the clock [iterateTimeStep] reads is
    [time.process_time()], the CPU time of the process, not the wall
    clock.  It subtracts [_last_saved_time] from the reading in double
    arithmetic and compares the difference with [_save_interval].
    Exactly when the difference is greater, the files after the call are
    those [saveState] leaves, the clock has been read a second time and
    that second reading is the new [_last_saved_time]; otherwise no file
    changes, [_last_saved_time] stays and the clock was read once.  In
    both cases the step follows: at [tMax <= time] the capacity error is
    raised and [time], the array and the random source are unchanged;
    below capacity the call returns, [time] is one more and the array and
    the random source are those of the recurrence update. *)
Theorem iterateTimeStep_checkpoint_rule w d :
  fs (fst (snd (iterateTimeStep (w, d)))) =
    (if elapsed_exceeds (clock w (reads w)) (_last_saved_time d) (_save_interval d)
     then fs (fst (snd (saveState (tick w, d)))) else fs w)
  /\ _last_saved_time (snd (snd (iterateTimeStep (w, d)))) =
    (if elapsed_exceeds (clock w (reads w)) (_last_saved_time d) (_save_interval d)
     then clock w (S (reads w)) else _last_saved_time d)
  /\ reads (fst (snd (iterateTimeStep (w, d)))) =
    (if elapsed_exceeds (clock w (reads w)) (_last_saved_time d) (_save_interval d)
     then S (S (reads w)) else S (reads w))
  /\ (if tMax d <=? time d
      then fst (iterateTimeStep (w, d)) = Raise (ValueError (capacity_message (tMax d)))
           /\ time (snd (snd (iterateTimeStep (w, d)))) = time d
           /\ CDF (snd (snd (iterateTimeStep (w, d)))) = CDF d
           /\ gen (snd (snd (iterateTimeStep (w, d)))) = gen d
      else fst (iterateTimeStep (w, d)) = Return tt
           /\ time (snd (snd (iterateTimeStep (w, d)))) = time d + 1
           /\ (gen (snd (snd (iterateTimeStep (w, d)))),
               CDF (snd (snd (iterateTimeStep (w, d)))))
              = recurrence (gen d) (beta d) (time d) (CDF d)).
Proof.
  unfold iterateTimeStep, bind. rewrite throttled_save_eq.
  unfold checked_step, bind, get, super_iterateTimeStep. rewrite saveState_eq.
  destruct (elapsed_exceeds _ _ _); simpl;
    destruct (tMax d <=? time d); simpl;
    try destruct (recurrence _ _ _ _) as [g c]; simpl; repeat split.
Qed.

(** ** Checkpoint paths *)

Lemma os_path_join_relative a c b :
  Ascii.eqb c "/" = false ->
  os_path_join a (String c b) =
  (if (String.eqb a "" || endswith_sep a)%bool then a else a +:+ "/") +:+ String c b.
Proof.
  intros Hc. unfold os_path_join, startswith_sep. rewrite Hc.
  destruct (String.eqb a "" || endswith_sep a)%bool; [reflexivity |].
  induction a as [| x a IH]; [reflexivity |].
  change (String x (a +:+ "/" +:+ String c b) = String x ((a +:+ "/") +:+ String c b)).
  now rewrite IH.
Qed.

(** The two files of a checkpoint never coincide. *)
Lemma checkpoint_files_differ d : cdf_file_of d <> scalars_file_of d.
Proof.
  unfold cdf_file_of, scalars_file_of.
  change ("CDF" +:+ str_id (id d) +:+ ".txt")
    with (String "C" ("DF" +:+ str_id (id d) +:+ ".txt")).
  change ("Scalars" +:+ str_id (id d) +:+ ".json")
    with (String "S" ("calars" +:+ str_id (id d) +:+ ".json")).
  rewrite !os_path_join_relative by reflexivity.
  intros H. apply String.app_inj in H. discriminate H.
Qed.

Lemma saved_fs_cdf d f :
  saved_fs d f !! cdf_file_of d = Some (map LQuad (getSaveCDF d)).
Proof.
  unfold saved_fs.
  rewrite lookup_insert_ne by (intros E; symmetry in E; now apply checkpoint_files_differ in E).
  apply lookup_insert_eq.
Qed.

Lemma saved_fs_scalars d f :
  saved_fs d f !! scalars_file_of d = Some [LJson (scalars_of d)].
Proof. unfold saved_fs. apply lookup_insert_eq. Qed.

(** C10: when the save interval has elapsed, that is when the test of
    source line 200 holds as the code computes it, on doubles, and
    [time = tMax], the call of [iterateTimeStep] raises the capacity
    error in a world whose files
    are those [saveState] leaves: both checkpoint files are written
    although the step fails. *)
Theorem iterateTimeStep_saves_then_raises w d :
  time d = tMax d ->
  elapsed_exceeds (clock w (reads w)) (_last_saved_time d) (_save_interval d) = true ->
  fst (iterateTimeStep (w, d)) = Raise (ValueError (capacity_message (tMax d)))
  /\ fs (fst (snd (iterateTimeStep (w, d)))) = fs (fst (snd (saveState (tick w, d))))
  /\ fs (fst (snd (iterateTimeStep (w, d)))) !! cdf_file_of d
     = Some (map LQuad (getSaveCDF d))
  /\ fs (fst (snd (iterateTimeStep (w, d)))) !! scalars_file_of d
     = Some [LJson (scalars_of d)].
Proof.
  intros Ht Hlt. rewrite iterateTimeStep_eq.
  unfold before_check. rewrite saveState_eq, Hlt.
  simpl. rewrite checked_step_full by (simpl; lia). simpl.
  split; [reflexivity |]. split; [reflexivity |].
  split; [apply saved_fs_cdf | apply saved_fs_scalars].
Qed.

(** ** Repeated steps *)

(** The fuel [evolveToTime] gives its loop is enough: more fuel changes
    nothing, so the loop ends by its own test or by an exception. *)
Lemma evolveToTime_loop_fuel t fuel s :
  (Z.to_nat (t - time (snd s)) <= fuel)%nat ->
  evolveToTime_loop fuel t s = evolveToTime t s.
Proof.
  unfold evolveToTime. revert s.
  induction fuel as [| fuel IH]; intros s Hf.
  - replace (Z.to_nat (t - time (snd s))) with O by lia. reflexivity.
  - destruct (Z.to_nat (t - time (snd s))) as [| k] eqn:Ek.
    + simpl. unfold bind, get.
      destruct s as [w d]; simpl in *.
      destruct (Z.ltb_spec (time d) t); [lia | reflexivity].
    + simpl. unfold bind at 1 3, get.
      destruct s as [w d]; simpl in *.
      destruct (Z.ltb_spec (time d) t); [| reflexivity].
      unfold bind.
      destruct (Z_lt_le_dec (time d) (tMax d)) as [Hr | Hfull].
      * destruct (iterateTimeStep_room (w, d) Hr) as (s' & -> & Ht' & _).
        simpl in Ht'.
        rewrite IH by lia.
        replace (Z.to_nat (t - time (snd s'))) with k by lia. reflexivity.
      * destruct (iterateTimeStep_full (w, d) Hfull) as (s' & ->). reflexivity.
Qed.

(** Below capacity, the loop towards [time + n] is [n] calls. *)
Lemma evolveToTime_loop_calls n : forall fuel s,
  (n <= fuel)%nat ->
  time (snd s) + Z.of_nat n <= tMax (snd s) ->
  evolveToTime_loop fuel (time (snd s) + Z.of_nat n) s = calls n iterateTimeStep s.
Proof.
  induction n as [| n IH]; intros fuel s Hf Hcap.
  - destruct fuel; simpl; [reflexivity |].
    unfold bind, get. destruct s as [w d]; simpl.
    destruct (time d <? _) eqn:E; [apply Z.ltb_lt in E; lia | reflexivity].
  - destruct fuel as [| fuel]; [lia |]. simpl.
    unfold bind at 1, get. destruct s as [w d]; simpl in *.
    destruct (time d <? _) eqn:E; [clear E | apply Z.ltb_ge in E; lia].
    unfold bind.
    destruct (iterateTimeStep_room (w, d)) as (s' & -> & Ht' & Hm'); [simpl; lia |].
    simpl in Ht', Hm'.
    replace (time d + Z.of_nat (S n)) with (time (snd s') + Z.of_nat n) by lia.
    apply IH; lia.
Qed.

Lemma evolveTimesteps_calls num s :
  evolveTimesteps num s = calls (Z.to_nat num) iterateTimeStep s.
Proof.
  unfold evolveTimesteps, range.
  generalize (Z.to_nat num) as n. generalize O as k.
  intros k n. revert k s.
  induction n as [| n IH]; intros k s; simpl; [reflexivity |].
  unfold bind. destruct (iterateTimeStep s) as [[[] | e |] s']; [apply IH | reflexivity..].
Qed.

(** C2: from [time = 0], for [0 < t <= tMax], [evolveToTime t] reaches
    the state (world, time, array, generator) and result that [t] calls
    of [iterateTimeStep] in sequence reach; and [evolveTimesteps n] is
    [n] calls in sequence, from any state. *)
Theorem evolveToTime_is_repeated_step w d t :
  time d = 0 ->
  0 < t <= tMax d ->
  evolveToTime t (w, d) = calls (Z.to_nat t) iterateTimeStep (w, d)
  /\ forall n s, evolveTimesteps n s = calls (Z.to_nat n) iterateTimeStep s.
Proof.
  intros H0 Ht. split; [| intros; apply evolveTimesteps_calls].
  unfold evolveToTime; simpl. rewrite H0, Z.sub_0_r.
  replace t with (time (snd (w, d)) + Z.of_nat (Z.to_nat t)) at 2 by (simpl; lia).
  apply evolveToTime_loop_calls; simpl; lia.
Qed.

(** C9: a target at or before the current [time] makes [evolveToTime]
    return at once: no step, no clock reading, the whole state as it was
    and no exception. *)
Theorem evolveToTime_not_forward w d t :
  t <= time d ->
  evolveToTime t (w, d) = (Return tt, (w, d)).
Proof.
  intros H. unfold evolveToTime; simpl.
  replace (Z.to_nat (t - time d)) with O by lia. reflexivity.
Qed.

(** ** Checkpoint round trip *)

Lemma parse_quads_written (vs : list quad) : parse_quads (map LQuad vs) = Some vs.
Proof. induction vs as [| v vs IH]; simpl; [reflexivity | now rewrite IH]. Qed.

Lemma scalars_of_lookup d :
  scalars_of d !! "time" = Some (JInt (time d))
  /\ scalars_of d !! "beta" = Some (JFloat (beta d))
  /\ scalars_of d !! "tMax" = Some (JInt (tMax d))
  /\ scalars_of d !! "id" = Some (json_of_id (id d))
  /\ scalars_of d !! "save_dir" = Some (JStr (save_dir d)).
Proof. unfold scalars_of. repeat split; reflexivity. Qed.

Lemma as_id_json_of_id (S : Type) i : @as_id S (json_of_id i) = ret i.
Proof. destruct i as [[z | x] |]; reflexivity. Qed.

(** What [fromFiles] builds from the files of a checkpoint of [d]. *)
Lemma fromFiles_saved w d :
  0 <= time d <= tMax d ->
  length (CDF d) = Z.to_nat (tMax d + 1) ->
  fs w !! cdf_file_of d = Some (map LQuad (getSaveCDF d)) ->
  fs w !! scalars_file_of d = Some [LJson (scalars_of d)] ->
  fromFiles (cdf_file_of d) (scalars_file_of d) w =
  (Return {| beta := beta d; time := time d; tMax := tMax d;
             CDF := (getSaveCDF d
                     ++ drop (Z.to_nat (time d + 1))
                          (replicate (Z.to_nat (tMax d + 1)) 0%Q))%list;
             gen := rng_fresh;
             _last_saved_time := clock w (reads w);
             _save_interval := 21600%float;
             id := id d; save_dir := save_dir d |},
   tick w).
Proof.
  intros Ht Hlen Hcdf Hsc.
  destruct (scalars_of_lookup d) as (Lt & Lb & Lm & Li & Ls).
  unfold fromFiles, bind, json_load_from, loadArrayQuad, getitem.
  rewrite Hsc, Hcdf, parse_quads_written, Lm, Lt, Lb, Li, Ls. simpl.
  rewrite as_id_json_of_id. unfold np_zeros, ret.
  destruct (tMax d + 1 <? 0) eqn:E; [apply Z.ltb_lt in E; lia | clear E].
  unfold assign_prefix, slice_stop.
  destruct (time d + 1 <? 0) eqn:E; [apply Z.ltb_lt in E; lia | clear E].
  rewrite length_replicate.
  assert (Hm : Nat.min (Z.to_nat (time d + 1)) (Z.to_nat (tMax d + 1))
               = Z.to_nat (time d + 1)) by lia.
  rewrite Hm.
  assert (Hl : length (getSaveCDF d) = Z.to_nat (time d + 1)).
  { unfold getSaveCDF. rewrite length_take. lia. }
  rewrite Hl, Nat.eqb_refl. reflexivity.
Qed.

(** C3: [saveState] followed by [fromFiles] on the two files it wrote
    returns an object with the [time], [beta], [tMax], [id] and
    [save_dir] of the original, whose array has the original's cells at
    the indices [0 .. time] and zero at the indices past [time]. *)
Theorem checkpoint_round_trip w d :
  0 <= time d <= tMax d ->
  length (CDF d) = Z.to_nat (tMax d + 1) ->
  exists d',
    fst (fromFiles (cdf_file_of d) (scalars_file_of d) (fst (snd (saveState (w, d)))))
    = Return d'
    /\ time d' = time d /\ beta d' = beta d /\ tMax d' = tMax d
    /\ id d' = id d /\ save_dir d' = save_dir d
    /\ length (CDF d') = length (CDF d)
    /\ (forall n, 0 <= n <= time d -> CDF d' !! Z.to_nat n = CDF d !! Z.to_nat n)
    /\ (forall n, time d < n <= tMax d -> CDF d' !! Z.to_nat n = Some 0%Q).
Proof.
  intros Ht Hlen. rewrite saveState_eq. simpl.
  rewrite fromFiles_saved; try assumption;
    [| apply saved_fs_cdf | apply saved_fs_scalars].
  eexists. split; [reflexivity |]. simpl.
  assert (Hl : length (getSaveCDF d) = Z.to_nat (time d + 1)).
  { unfold getSaveCDF. rewrite length_take. lia. }
  repeat split.
  - rewrite length_app, Hl, length_drop, length_replicate. lia.
  - intros n Hn. rewrite lookup_app_l by lia.
    unfold getSaveCDF. apply lookup_take_lt. lia.
  - intros n Hn. rewrite lookup_app_r by lia.
    rewrite lookup_drop. apply lookup_replicate_2. lia.
Qed.

(** ** Quantile search *)

Lemma exceeds_true v q : exceeds v q = true <-> (1 / q < v)%Q.
Proof.
  unfold exceeds. rewrite negb_true_iff, <- not_true_iff_false, Qle_bool_iff.
  split; [apply Qnot_le_lt | apply Qlt_not_le].
Qed.

(** A larger quantile is a smaller threshold. *)
Lemma threshold_antitone (q q' : Q) :
  (0 < q')%Q -> (q' <= q)%Q -> (1 / q <= 1 / q')%Q.
Proof.
  intros Hpos Hle. unfold Qdiv. rewrite !Qmult_1_l.
  destruct (Qle_lt_or_eq _ _ Hle) as [Hlt | Heq].
  - apply Qlt_le_weak.
    assert (Hq : (0 < q)%Q) by (eapply Qlt_trans; eassumption).
    exact (proj1 (Qinv_lt_contravar q' q Hpos Hq) Hlt).
  - rewrite Heq. apply Qle_refl.
Qed.

Lemma exceeds_mono v q q' :
  (0 < q')%Q -> (q' <= q)%Q -> exceeds v q' = true -> exceeds v q = true.
Proof.
  intros Hpos Hle. rewrite !exceeds_true. intros H.
  eapply Qle_lt_trans; [apply threshold_antitone |]; eassumption.
Qed.

(** The sweep for a smaller quantile can start where the sweep for a
    larger one stopped. *)
Lemma sweep_resume cells q q' :
  (0 < q')%Q -> (q' <= q)%Q -> sweep (sweep cells q) q' = sweep cells q'.
Proof.
  intros Hpos Hle. induction cells as [| v cells IH]; simpl; [reflexivity |].
  destruct (exceeds v q) eqn:Eq.
  - reflexivity.
  - destruct (exceeds v q') eqn:Eq'; [| exact IH].
    apply (exceeds_mono v q q') in Eq'; congruence.
Qed.

(** On quantiles in descending order the single sweep finds for each
    quantile what a sweep of its own finds. *)
Lemma sweep_all_each t qs : forall cells,
  StronglySorted (fun a b => (b <= a)%Q) qs ->
  Forall (fun q => (0 < q)%Q) qs ->
  sweep_all t cells qs = map (fun q => position t (length (sweep cells q))) qs.
Proof.
  induction qs as [| q qs IH]; intros cells Hs Hpos; simpl; [reflexivity |].
  apply StronglySorted_inv in Hs as [Hs Hq].
  apply Forall_cons in Hpos as [_ Hpos].
  f_equal. rewrite IH by assumption.
  apply map_ext_in. intros q' Hin.
  rewrite List.Forall_forall in Hq, Hpos.
  rewrite sweep_resume; auto.
Qed.

Lemma insert_by_last leb x l :
  Forall (fun y => leb x y = false) l -> insert_by leb x l = (l ++ [x])%list.
Proof.
  induction 1 as [| y l Hy _ IH]; simpl; [reflexivity |].
  now rewrite Hy, IH.
Qed.

(** Sorting a strictly ascending list in descending order reverses it. *)
Lemma sort_descending_ascending qs :
  StronglySorted Qlt qs -> sort_descending qs = rev qs.
Proof.
  unfold sort_descending.
  induction 1 as [| x l _ IH Hx]; simpl; [reflexivity |].
  rewrite IH. apply insert_by_last.
  rewrite List.Forall_forall in *. intros y Hy. rewrite <- in_rev in Hy.
  apply not_true_iff_false. rewrite Qle_bool_iff.
  apply Qlt_not_le. auto.
Qed.

Lemma descending_rev qs :
  StronglySorted Qlt qs -> StronglySorted (fun a b => (b <= a)%Q) (rev qs).
Proof.
  induction 1 as [| x l _ IH Hx]; simpl; [constructor |].
  apply StronglySorted_app_2; [| assumption | repeat constructor].
  intros x1 x2 H1 H2. apply list_elem_of_In in H1. rewrite <- in_rev in H1.
  apply list_elem_of_singleton in H2 as ->.
  rewrite List.Forall_forall in Hx. apply Qlt_le_weak. auto.
Qed.

(** The cell the sweep reports: every valid cell from it on is at or
    below the threshold and the cell before it is above. *)
Lemma sweep_crossing (l : list quad) q :
  let n := length (sweep (rev l) q) in
  (n <= length l)%nat
  /\ (forall i v, (n <= i)%nat -> l !! i = Some v -> exceeds v q = false)
  /\ (forall v, (0 < n)%nat -> l !! (n - 1)%nat = Some v -> exceeds v q = true).
Proof.
  induction l as [| x l IH] using rev_ind; simpl.
  - split; [lia |]. split; [intros i v _ H; discriminate | intros v H; lia].
  - rewrite rev_app_distr. simpl.
    destruct (exceeds x q) eqn:Ex; simpl.
    + rewrite length_rev, length_app. simpl. split; [| split].
      * lia.
      * intros i v Hi Hv. apply lookup_lt_Some in Hv.
        rewrite length_app in Hv. simpl in Hv. lia.
      * intros v _ Hv. rewrite lookup_app_r in Hv by lia.
        match type of Hv with
        | _ !! ?k = _ => replace k with O in Hv by lia
        end.
        simpl in Hv. congruence.
    + destruct IH as (Hn & Hafter & Hbefore). rewrite length_app. simpl.
      split; [| split].
      * lia.
      * intros i v Hi Hv.
        destruct (Nat.lt_ge_cases i (length l)) as [Hlt | Hge].
        -- rewrite lookup_app_l in Hv by lia. eauto.
        -- rewrite lookup_app_r in Hv by lia.
           destruct (i - length l)%nat; simpl in Hv; [congruence | discriminate].
      * intros v Hpos Hv. rewrite lookup_app_l in Hv by lia. auto.
Qed.

(** On a vector that is non-increasing across positions, as the
    complementary form is, the reported cell is the first one at or below
    the threshold. *)
Lemma sweep_first_at_or_below (l : list quad) q :
  (forall i j vi vj, (i <= j)%nat -> l !! i = Some vi -> l !! j = Some vj ->
                     (vj <= vi)%Q) ->
  forall i v, (i < length (sweep (rev l) q))%nat -> l !! i = Some v ->
              exceeds v q = true.
Proof.
  intros Hmono i v Hi Hv.
  destruct (sweep_crossing l q) as (Hn & _ & Hbefore).
  destruct (lookup_lt_is_Some_2 l (length (sweep (rev l) q) - 1)) as [u Hu]; [lia |].
  specialize (Hbefore u ltac:(lia) Hu).
  apply exceeds_true. apply exceeds_true in Hbefore.
  eapply Qlt_le_trans; [exact Hbefore |].
  apply (Hmono i (length (sweep (rev l) q) - 1)%nat); [lia | assumption..].
Qed.

(** C4: for quantiles given in strictly ascending order with
    [descending = False], [findQuantiles] returns the positions in the
    order of its input, each the result of [findQuantile] on that
    quantile in the same state. *)
Theorem findQuantiles_ascending_agrees d (quantiles : list quad) :
  StronglySorted Qlt quantiles ->
  Forall (fun q => (1 <= q)%Q) quantiles ->
  findQuantiles d quantiles false = map (findQuantile d) quantiles.
Proof.
  intros Hs Hq.
  unfold findQuantiles, super_findQuantiles, findQuantile, super_findQuantile.
  rewrite sort_descending_ascending by assumption.
  rewrite sweep_all_each.
  - rewrite map_rev. apply rev_involutive.
  - now apply descending_rev.
  - apply List.Forall_forall. intros q Hin. rewrite <- in_rev in Hin.
    rewrite List.Forall_forall in Hq. eapply Qlt_le_trans; [| apply Hq, Hin].
    reflexivity.
Qed.

(** ** Saving without an identity *)

(** C5, as amended: [saveState] does not look at [id] before it writes.
    With [id] unset it returns normally, having written the valid prefix
    of the array to [CDFNone.txt] and the scalars, with [id] null, to
    [ScalarsNone.json], both under [save_dir]. *)
Theorem saveState_unset_id w d :
  id d = None ->
  fst (saveState (w, d)) = Return tt
  /\ fs (fst (snd (saveState (w, d)))) !! os_path_join (save_dir d) "CDFNone.txt"
     = Some (map LQuad (getSaveCDF d))
  /\ fs (fst (snd (saveState (w, d)))) !! os_path_join (save_dir d) "ScalarsNone.json"
     = Some [LJson (scalars_of d)]
  /\ scalars_of d !! "id" = Some JNull.
Proof.
  intros Hid. rewrite saveState_eq. simpl.
  pose proof (saved_fs_cdf d (fs w)) as Hc.
  pose proof (saved_fs_scalars d (fs w)) as Hs.
  destruct (scalars_of_lookup d) as (_ & _ & _ & Hi & _).
  unfold cdf_file_of, scalars_file_of in Hc, Hs.
  rewrite Hid in Hc, Hs, Hi. auto.
Qed.

(** ** Derived CSV outputs *)

Lemma for_fold_invariant {S A L} (P : L -> Prop) (body : A -> L -> M S L) :
  (forall x l (st : S) l' st', body x l st = (Return l', st') -> P l') ->
  forall xs l (st : S) l' st',
    P l -> for_fold xs body l st = (Return l', st') -> P l'.
Proof.
  intros Hbody xs. induction xs as [| x xs IH]; intros l st l' st' Hl H; simpl in H.
  - inversion H; subst. assumption.
  - unfold bind in H. destruct (body x l st) as [[l1 | e |] st1] eqn:E; [| discriminate..].
    eapply IH; [| eassumption]. eapply Hbody; eassumption.
Qed.

(** An iteration of [evolveAndGetVariance] that returns has flushed: the
    buffer is empty and its row is the last line of the file. *)
Lemma evolveAndGetVariance_body_flushes nParticles t f s f' s' :
  evolveAndGetVariance_body nParticles t f s = (Return f', s') ->
  h_buf f' = []
  /\ exists before row,
       fs (fst s') !! h_path f = Some (before ++ h_buf f ++ [LRow row])%list.
Proof.
  unfold evolveAndGetVariance_body, bind, get, in_world, flush.
  destruct (evolveToTime t s) as [[[] | e |] [w1 d1]]; simpl; [| discriminate..].
  intros H. inversion H; subst; clear H. simpl. split; [reflexivity |].
  rewrite lookup_insert_eq. eauto.
Qed.

(** An iteration of [evolveAndGetProbAndV] that returns has flushed. *)
Lemma evolveAndGetProbAndV_body_flushes quantile t f s f' s' :
  evolveAndGetProbAndV_body quantile t f s = (Return f', s') ->
  h_buf f' = []
  /\ exists before row,
       fs (fst s') !! h_path f = Some (before ++ h_buf f ++ [LRow row])%list.
Proof.
  unfold evolveAndGetProbAndV_body, bind, get, in_world, flush.
  destruct (evolveToTime t s) as [[[] | e |] [w1 d1]]; simpl; [| discriminate..].
  destruct (getProbandV d1 quantile) as [prob v].
  intros H. inversion H; subst; clear H. simpl. split; [reflexivity |].
  rewrite lookup_insert_eq. eauto.
Qed.

(** An iteration of [evolveAndSaveQuantile] that returns has only added
    its row to the buffer. *)
Lemma evolveAndSaveQuantile_body_buffers t f qs s f' qs' s' :
  evolveAndSaveQuantile_body t (f, qs) s = (Return (f', qs'), s') ->
  exists row, h_buf f' = (h_buf f ++ [LRow row])%list.
Proof.
  unfold evolveAndSaveQuantile_body, bind, get.
  destruct (evolveToTime t s) as [[[] | e |] [w1 d1]]; simpl; [| discriminate..].
  unfold ret. intros H. inversion H; subst; clear H. simpl. eauto.
Qed.

(** After any number of iterations of [evolveAndGetVariance] nothing is
    left in the buffer. *)
Lemma evolveAndGetVariance_rows_flushed k times nParticles file append s f s' :
  evolveAndGetVariance_interrupted k times nParticles file append s = (Return f, s') ->
  h_buf f = [].
Proof.
  unfold evolveAndGetVariance_interrupted, bind at 1.
  destruct (evolveAndGetVariance_open nParticles file append s) as [[f0 | e |] s0] eqn:E;
    [| discriminate..].
  apply (for_fold_invariant (fun f => h_buf f = [])).
  - intros x l s1 l' s1' H. now apply evolveAndGetVariance_body_flushes in H.
  - unfold evolveAndGetVariance_open, bind, in_world, open_append, flush, ret in E.
    simpl in E. destruct append; simpl in E; inversion E; reflexivity.
Qed.

(** After at least one iteration of [evolveAndGetProbAndV] nothing is
    left in the buffer. *)
Lemma evolveAndGetProbAndV_rows_flushed k quantile t time save_file s f s' :
  evolveAndGetProbAndV_interrupted (S k) quantile (t :: time) save_file s
  = (Return f, s') ->
  h_buf f = [].
Proof.
  unfold evolveAndGetProbAndV_interrupted, bind at 1.
  destruct (evolveAndGetProbAndV_open quantile save_file s) as [[f0 | e |] s0];
    [| discriminate..].
  simpl. unfold bind at 1.
  destruct (evolveAndGetProbAndV_body quantile t f0 s0) as [[f1 | e |] s1] eqn:E;
    [| discriminate..].
  apply (for_fold_invariant (fun f => h_buf f = [])).
  - intros x l s2 l' s2' H. now apply evolveAndGetProbAndV_body_flushes in H.
  - now apply evolveAndGetProbAndV_body_flushes in E.
Qed.

End Properties.

(** * Concrete runs *)

Example os_path_join_dot : os_path_join "." "CDF7.txt" = "./CDF7.txt".
Proof. reflexivity. Qed.

Example os_path_join_slash : os_path_join "runs/" "CDF7.txt" = "runs/CDF7.txt".
Proof. reflexivity. Qed.

Example os_path_join_empty : os_path_join "" "CDF7.txt" = "CDF7.txt".
Proof. reflexivity. Qed.

Example os_path_join_absolute : os_path_join "runs" "/tmp/x" = "/tmp/x".
Proof. reflexivity. Qed.

Example str_int_negative : str_int (-12) = "-12".
Proof. reflexivity. Qed.

Example checkpoint_names :
  cdf_file_of (sample_engine 1 (Some (IdInt 7))) = "./CDF7.txt"
  /\ scalars_file_of (sample_engine 1 (Some (IdStr "run-a"))) = "./Scalarsrun-a.json".
Proof. split; reflexivity. Qed.

(** The array [1, 1/2, 1/4] at time 2: quantile 2 is first met at cell 1,
    quantile 3 at cell 2, quantile 5 past the last cell. *)
Example findQuantile_sample :
  map (findQuantile (sample_engine 2 None)) [2; 3; 5]%Q = [0; 2; 4].
Proof. reflexivity. Qed.

Example findQuantiles_descending_sample :
  findQuantiles (sample_engine 2 None) [5; 3; 2]%Q true = [4; 2; 0].
Proof. reflexivity. Qed.

(** Two steps of the sample kernel from time 0. *)
Example evolveToTime_sample :
  let s := snd (evolveToTime 2 (sample_world 0, sample_engine 0 None)) in
  time (snd s) = 2 /\ reads (fst s) = 2%nat /\ fs (fst s) = ∅.
Proof. repeat split; vm_compute; reflexivity. Qed.

(** Evolving past [tMax] stops at [tMax] with the capacity error. *)
Example evolveToTime_past_capacity :
  fst (evolveToTime 5 (sample_world 0, sample_engine 0 None))
  = Raise (ValueError "Cannot evolve to time greater than tMax: 2")
  /\ time (snd (snd (evolveToTime 5 (sample_world 0, sample_engine 0 None)))) = 2.
Proof. split; vm_compute; reflexivity. Qed.

Lemma iterateTimeStep_at_capacity_witness :
  time (sample_engine 2 None) = tMax (sample_engine 2 None)
  /\ fst (iterateTimeStep (sample_world 0, sample_engine 2 None))
     = Raise (ValueError "Cannot evolve to time greater than tMax: 2")
  /\ time (snd (snd (iterateTimeStep (sample_world 0, sample_engine 2 None)))) = 2
  /\ CDF (snd (snd (iterateTimeStep (sample_world 0, sample_engine 2 None))))
     = [1; 1 # 2; 1 # 4]%Q.
Proof.
  split; [reflexivity |].
  destruct (iterateTimeStep_at_capacity (K:=sample_kernel)
              (sample_world 0) (sample_engine 2 None) eq_refl)
    as (Hr & Ht & Hc & _).
  repeat split; assumption.
Defined.

Lemma evolveToTime_is_repeated_step_witness :
  time (sample_engine 0 None) = 0
  /\ 0 < 2 <= tMax (sample_engine 0 None)
  /\ evolveToTime 2 (sample_world 0, sample_engine 0 None)
     = calls 2 iterateTimeStep (sample_world 0, sample_engine 0 None).
Proof.
  split; [reflexivity |]. split; [simpl; lia |].
  apply (evolveToTime_is_repeated_step (K:=sample_kernel)
           (sample_world 0) (sample_engine 0 None) 2);
    [reflexivity | simpl; lia].
Defined.

Lemma checkpoint_round_trip_witness :
  exists d' : DiffusionTimeCDF sample_kernel,
    fst (fromFiles "./CDF7.txt" "./Scalars7.json"
           (fst (snd (saveState (sample_world 0, sample_engine 1 (Some (IdInt 7)))))))
    = Return d'
    /\ time d' = 1 /\ tMax d' = 2 /\ id d' = Some (IdInt 7) /\ save_dir d' = "."
    /\ CDF d' !! 1%nat = Some (1 # 2)%Q /\ CDF d' !! 2%nat = Some 0%Q.
Proof.
  destruct (checkpoint_round_trip (K:=sample_kernel)
              (sample_world 0) (sample_engine 1 (Some (IdInt 7))))
    as (d' & Hr & Ht & _ & Hm & Hi & Hs & _ & Hin & Hout);
    [simpl; lia | reflexivity |].
  exists d'. repeat split; try assumption.
  - apply (Hin 1). simpl; lia.
  - apply (Hout 2). simpl; lia.
Defined.

Lemma findQuantiles_ascending_agrees_witness :
  findQuantiles (sample_engine 2 None) [2; 3; 5]%Q false
  = map (findQuantile (sample_engine 2 None)) [2; 3; 5]%Q.
Proof.
  apply (findQuantiles_ascending_agrees (K:=sample_kernel)).
  - repeat (constructor; try reflexivity).
  - repeat (constructor; try discriminate).
Defined.

(** C5 as the spec states it fails: with [id] unset [saveState] returns
    normally and both files exist afterwards. *)
Lemma saveState_unset_id_counterexample :
  id (sample_engine 1 None) = None
  /\ fst (saveState (sample_world 0, sample_engine 1 None)) = Return tt
  /\ fs (sample_world 0) !! "./CDFNone.txt" = None
  /\ fs (fst (snd (saveState (sample_world 0, sample_engine 1 None)))) !! "./CDFNone.txt"
     = Some [LQuad 1; LQuad (1 # 2)]
  /\ fs (fst (snd (saveState (sample_world 0, sample_engine 1 None)))) !! "./ScalarsNone.json"
     = Some [LJson (scalars_of (sample_engine 1 None))].
Proof. repeat split; vm_compute; reflexivity. Qed.

Lemma saveState_unset_id_witness :
  id (sample_engine 1 None) = None
  /\ fst (saveState (sample_world 0, sample_engine 1 None)) = Return tt.
Proof.
  split; [reflexivity |].
  apply (saveState_unset_id (K:=sample_kernel) (sample_world 0) (sample_engine 1 None)).
  reflexivity.
Defined.

(** C7: [evolveAndSaveQuantile] writes its rows without flushing.
    Stopped after the first iteration, the header and the row for time 1
    are in the buffer and the file on disk is empty. *)
Theorem evolveAndSaveQuantile_row_not_flushed :
  exists f qs w' d',
    evolveAndSaveQuantile_interrupted 1 [1] [2%Q] "quantiles.csv" false
      (sample_world 0, sample_engine 0 None)
    = (Return (f, qs), (w', d'))
    /\ time d' = 1
    /\ h_buf f = [LRow [CStr "time"; CLabel "" 2]; LRow [CInt 1; CInt 3]]
    /\ fs w' !! "quantiles.csv" = Some [].
Proof.
  do 4 eexists. split; [vm_compute; reflexivity |].
  repeat split; vm_compute; reflexivity.
Qed.

Lemma evolveToTime_not_forward_witness :
  evolveToTime 1 (sample_world 0, sample_engine 2 None)
  = (Return tt, (sample_world 0, sample_engine 2 None)).
Proof.
  apply (evolveToTime_not_forward (K:=sample_kernel)). simpl; lia.
Defined.

Lemma iterateTimeStep_saves_then_raises_witness :
  fst (iterateTimeStep (sample_world 30000, sample_engine 2 (Some (IdInt 7))))
  = Raise (ValueError "Cannot evolve to time greater than tMax: 2")
  /\ fs (fst (snd (iterateTimeStep (sample_world 30000, sample_engine 2 (Some (IdInt 7))))))
       !! "./CDF7.txt"
     = Some [LQuad 1; LQuad (1 # 2); LQuad (1 # 4)].
Proof.
  destruct (iterateTimeStep_saves_then_raises (K:=sample_kernel)
              (sample_world 30000) (sample_engine 2 (Some (IdInt 7))))
    as (Hr & _ & Hc & _); [reflexivity | reflexivity |].
  split; assumption.
Defined.

(** C6 as the spec states it fails: 30000 seconds of wall-clock time,
    more than the interval of 21600, have passed since the engine was
    built and last saved, during which the process used one second of CPU
    time.  The step is taken, no file is written and [_last_saved_time]
    is not reset. *)
Lemma iterateTimeStep_wall_clock_counterexample :
  _last_saved_time (sample_engine 0 None) = clock idle_world 0
  /\ PrimFloat.ltb (_save_interval (sample_engine 0 None))
       (PrimFloat.sub (wall idle_world (reads idle_world)) (wall idle_world 0)) = true
  /\ fst (iterateTimeStep (idle_world, sample_engine 0 None)) = Return tt
  /\ time (snd (snd (iterateTimeStep (idle_world, sample_engine 0 None)))) = 1
  /\ fs (fst (snd (iterateTimeStep (idle_world, sample_engine 0 None)))) = fs idle_world
  /\ _last_saved_time (snd (snd (iterateTimeStep (idle_world, sample_engine 0 None))))
     = _last_saved_time (sample_engine 0 None).
Proof. repeat split; vm_compute; reflexivity. Qed.

(** The test of source line 200 is made on doubles.  With a reading of
    21600.7 seconds and a last save at 0.7 seconds the difference is
    rounded to 21600, which is not greater than the interval: at
    [time = tMax] the call raises the capacity error, writes no file and
    reads the clock once. *)
Example iterateTimeStep_rounded_difference :
  PrimFloat.sub (clock rounding_world 0) (_last_saved_time rounding_engine)
  = 21600%float
  /\ elapsed_exceeds (clock rounding_world 0) (_last_saved_time rounding_engine)
       (_save_interval rounding_engine) = false
  /\ fst (iterateTimeStep (rounding_world, rounding_engine))
     = Raise (ValueError "Cannot evolve to time greater than tMax: 2")
  /\ fs (fst (snd (iterateTimeStep (rounding_world, rounding_engine))))
     = fs rounding_world
  /\ reads (fst (snd (iterateTimeStep (rounding_world, rounding_engine))))
     = 1%nat.
Proof. repeat split; vm_compute; reflexivity. Qed.

(** * Further properties of the wrapper *)

Section Further.
Context {K : Kernel}.
Implicit Types (w : world) (d : DiffusionTimeCDF K) (s : St K).

(** ** Evolution *)

Lemma before_check_clock w d :
  clock (fst (before_check w d)) = clock w
  /\ (reads w < reads (fst (before_check w d)))%nat.
Proof.
  unfold before_check. rewrite saveState_eq.
  destruct (elapsed_exceeds _ _ _); simpl; split; try reflexivity; lia.
Qed.

(** What a call of [iterateTimeStep] never changes, whether it returns or
    raises. *)
Lemma iterateTimeStep_keeps w d :
  let s' := snd (iterateTimeStep (w, d)) in
  tMax (snd s') = tMax d /\ beta (snd s') = beta d /\ id (snd s') = id d
  /\ save_dir (snd s') = save_dir d
  /\ _save_interval (snd s') = _save_interval d
  /\ clock (fst s') = clock w
  /\ (reads w < reads (fst s'))%nat.
Proof.
  rewrite iterateTimeStep_eq.
  destruct (before_check_fields w d) as (Ht & Hm & _ & _ & Hb & Hi & Hs & Hv).
  destruct (before_check_clock w d) as (Hc & Hr).
  destruct (before_check w d) as [w1 d1]; simpl in *.
  destruct (Z_lt_le_dec (time d1) (tMax d1)) as [Hroom | Hfull].
  - rewrite checked_step_room by assumption.
    unfold super_iterateTimeStep; simpl.
    destruct (recurrence _ _ _ _) as [g c]; simpl. auto 10.
  - rewrite checked_step_full by assumption. simpl. auto 10.
Qed.

(** A call either returns with [time] advanced by one or raises the
    capacity error with [time] as it was. *)
Lemma iterateTimeStep_cases s :
  (time (snd s) < tMax (snd s)
   /\ exists s', iterateTimeStep s = (Return tt, s')
                 /\ time (snd s') = time (snd s) + 1
                 /\ tMax (snd s') = tMax (snd s))
  \/ (tMax (snd s) <= time (snd s)
      /\ exists s', iterateTimeStep s
                    = (Raise (ValueError (capacity_message (tMax (snd s)))), s')
                    /\ time (snd s') = time (snd s)
                    /\ tMax (snd s') = tMax (snd s)
                    /\ CDF (snd s') = CDF (snd s)
                    /\ gen (snd s') = gen (snd s)).
Proof.
  destruct (Z_lt_le_dec (time (snd s)) (tMax (snd s))) as [Hroom | Hfull].
  - left. split; [assumption |]. now apply iterateTimeStep_room.
  - right. split; [assumption |].
    destruct s as [w d]; simpl in *. rewrite iterateTimeStep_eq.
    destruct (before_check_fields w d) as (Ht & Hm & Hc & Hg & _).
    destruct (before_check w d) as [w1 d1]; simpl in *.
    rewrite checked_step_full by lia. rewrite Hm.
    eexists; split; [reflexivity |]. simpl. auto.
Qed.

(** The loop towards [time + n] is [n] calls, at capacity or not. *)
Lemma evolveToTime_loop_calls_any n : forall fuel s,
  (n <= fuel)%nat ->
  evolveToTime_loop fuel (time (snd s) + Z.of_nat n) s = calls n iterateTimeStep s.
Proof.
  induction n as [| n IH]; intros fuel s Hf.
  - destruct fuel; simpl; [reflexivity |].
    unfold bind, get. destruct s as [w d]; simpl.
    destruct (time d <? _) eqn:E; [apply Z.ltb_lt in E; lia | reflexivity].
  - destruct fuel as [| fuel]; [lia |]. simpl.
    unfold bind at 1, get. destruct s as [w d]; simpl in *.
    destruct (time d <? _) eqn:E; [clear E | apply Z.ltb_ge in E; lia].
    unfold bind.
    destruct (iterateTimeStep_cases (w, d))
      as [(_ & s' & -> & Ht' & _) | (_ & s' & -> & _)]; [| reflexivity].
    simpl in Ht'.
    replace (time d + Z.of_nat (S n)) with (time (snd s') + Z.of_nat n) by lia.
    apply IH; lia.
Qed.

Lemma evolveToTime_calls t s :
  evolveToTime t s = calls (Z.to_nat (t - time (snd s))) iterateTimeStep s.
Proof.
  unfold evolveToTime.
  destruct (Z_le_gt_dec t (time (snd s))) as [Hle | Hgt].
  - replace (Z.to_nat (t - time (snd s))) with O by lia. reflexivity.
  - replace t with (time (snd s) + Z.of_nat (Z.to_nat (t - time (snd s)))) at 2 by lia.
    apply evolveToTime_loop_calls_any. lia.
Qed.

Lemma calls_add n m s :
  calls (n + m) iterateTimeStep s
  = bind (calls n iterateTimeStep) (fun _ => calls m iterateTimeStep) s.
Proof.
  revert s. induction n as [| n IH]; intros s; simpl; [reflexivity |].
  unfold bind. destruct (iterateTimeStep s) as [[[] | e |] s1]; [| reflexivity..].
  rewrite IH. reflexivity.
Qed.

Lemma calls_room n : forall s,
  time (snd s) + Z.of_nat n <= tMax (snd s) ->
  exists s', calls n iterateTimeStep s = (Return tt, s')
             /\ time (snd s') = time (snd s) + Z.of_nat n
             /\ tMax (snd s') = tMax (snd s).
Proof.
  induction n as [| n IH]; intros s Hcap; simpl.
  - exists s. repeat split; lia.
  - destruct (iterateTimeStep_room s) as (s1 & E1 & Ht1 & Hm1); [lia |].
    destruct (IH s1) as (s' & E' & Ht' & Hm'); [lia |].
    exists s'. unfold bind. rewrite E1, E'. repeat split; lia.
Qed.

Lemma evolveToTime_within w d t :
  t <= tMax d ->
  exists s', evolveToTime t (w, d) = (Return tt, s')
             /\ time (snd s') = Z.max (time d) t
             /\ tMax (snd s') = tMax d.
Proof.
  intros Ht. rewrite evolveToTime_calls. simpl.
  destruct (Z_le_gt_dec t (time d)) as [Hle | Hgt].
  - replace (Z.to_nat (t - time d)) with O by lia.
    exists (w, d). simpl. repeat split; lia.
  - destruct (calls_room (Z.to_nat (t - time d)) (w, d)) as (s' & E & Ht' & Hm');
      [simpl; lia |].
    exists s'. simpl in *. repeat split; [assumption | lia | assumption].
Qed.

(** X1: a target within capacity is reached: [evolveToTime t] returns,
    [time] is then the larger of the old [time] and [t], and [tMax] is as
    before. *)
Theorem evolveToTime_reaches w d t :
  t <= tMax d ->
  exists s', evolveToTime t (w, d) = (Return tt, s')
             /\ time (snd s') = Z.max (time d) t
             /\ tMax (snd s') = tMax d.
Proof. apply evolveToTime_within. Qed.

(** X2: a target past [tMax] is not rejected up front.  [evolveToTime]
    first takes every step up to [tMax], then the next call raises the
    capacity error: [time] ends at [tMax] and the array and the generator
    are the ones [evolveToTime tMax] leaves. *)
Theorem evolveToTime_beyond_tMax w d t :
  time d <= tMax d ->
  tMax d < t ->
  exists s1,
    evolveToTime (tMax d) (w, d) = (Return tt, s1)
    /\ fst (evolveToTime t (w, d)) = Raise (ValueError (capacity_message (tMax d)))
    /\ time (snd (snd (evolveToTime t (w, d)))) = tMax d
    /\ CDF (snd (snd (evolveToTime t (w, d)))) = CDF (snd s1)
    /\ gen (snd (snd (evolveToTime t (w, d)))) = gen (snd s1).
Proof.
  intros Hle Hgt. rewrite !evolveToTime_calls. simpl.
  replace (Z.to_nat (t - time d))
    with (Z.to_nat (tMax d - time d) + S (Z.to_nat (t - tMax d - 1)))%nat by lia.
  rewrite calls_add.
  destruct (calls_room (Z.to_nat (tMax d - time d)) (w, d)) as (s1 & E & Ht1 & Hm1);
    [simpl; lia |].
  simpl in Ht1, Hm1. exists s1. split; [assumption |].
  unfold bind at 1 2 3 4. rewrite E. simpl. unfold bind.
  destruct (iterateTimeStep_cases s1)
    as [(Hroom & _) | (_ & s2 & -> & Ht2 & _ & Hc2 & Hg2)]; [lia |].
  simpl. rewrite Hm1. repeat split; [lia | assumption..].
Qed.

(** X3: evolving to [t1] and then to a later [t2] within capacity is
    evolving to [t2]. *)
Theorem evolveToTime_compose w d t1 t2 :
  t1 <= t2 <= tMax d ->
  bind (evolveToTime t1) (fun _ => evolveToTime t2) (w, d) = evolveToTime t2 (w, d).
Proof.
  intros [H12 H2].
  destruct (evolveToTime_within w d t1) as (s1 & E1 & Ht1 & _); [lia |].
  unfold bind. rewrite E1.
  rewrite evolveToTime_calls in E1. simpl in E1.
  rewrite !evolveToTime_calls. simpl. rewrite Ht1.
  replace (Z.to_nat (t2 - time d))
    with (Z.to_nat (t1 - time d) + Z.to_nat (t2 - Z.max (time d) t1))%nat by lia.
  rewrite calls_add. unfold bind. now rewrite E1.
Qed.

(** X4: [evolveTimesteps n] is [evolveToTime (time + n)], from every
    state and for every [n]: both return at once for [n <= 0] and both
    stop with the capacity error at [tMax]. *)
Theorem evolveTimesteps_is_evolveToTime w d n :
  evolveTimesteps n (w, d) = evolveToTime (time d + n) (w, d).
Proof.
  rewrite evolveTimesteps_calls, evolveToTime_calls. simpl.
  f_equal. lia.
Qed.

(** ** Throttled checkpoints *)

Lemma iterateTimeStep_no_save w d :
  elapsed_exceeds (clock w (reads w)) (_last_saved_time d) (_save_interval d) = false ->
  fs (fst (snd (iterateTimeStep (w, d)))) = fs w
  /\ _last_saved_time (snd (snd (iterateTimeStep (w, d)))) = _last_saved_time d.
Proof.
  intros Hle. rewrite iterateTimeStep_eq. unfold before_check. rewrite Hle.
  destruct (Z_lt_le_dec (time d) (tMax d)) as [Hroom | Hfull].
  - rewrite checked_step_room by assumption.
    unfold super_iterateTimeStep; simpl.
    destruct (recurrence _ _ _ _) as [g c]; simpl. auto.
  - rewrite checked_step_full by assumption. simpl. auto.
Qed.

Lemma calls_no_save n : forall s,
  (forall k, elapsed_exceeds (clock (fst s) k) (_last_saved_time (snd s))
               (_save_interval (snd s)) = false) ->
  fs (fst (snd (calls n iterateTimeStep s))) = fs (fst s)
  /\ _last_saved_time (snd (snd (calls n iterateTimeStep s))) = _last_saved_time (snd s).
Proof.
  induction n as [| n IH]; intros s Hk; simpl; [auto |].
  destruct s as [w d]; simpl in *.
  destruct (iterateTimeStep_no_save w d (Hk _)) as (Hfs & Hlast).
  destruct (iterateTimeStep_keeps w d) as (_ & _ & _ & _ & Hv & Hc & _).
  unfold bind.
  destruct (iterateTimeStep (w, d)) as [[[] | e |] [w1 d1]]; simpl in *; [| auto..].
  destruct (IH (w1, d1)) as (Hfs' & Hlast'); simpl.
  - intros k. rewrite Hc, Hlast, Hv. apply Hk.
  - rewrite Hfs', Hlast'. auto.
Qed.

(** X5: while no clock reading is more than [_save_interval] after
    [_last_saved_time], in the test of source line 200 as the code
    computes it, evolving writes no file: after [evolveToTime],
    whatever its target and outcome, the file system and
    [_last_saved_time] are as before. *)
Theorem evolveToTime_no_checkpoint w d t :
  (forall k, elapsed_exceeds (clock w k) (_last_saved_time d) (_save_interval d) = false) ->
  fs (fst (snd (evolveToTime t (w, d)))) = fs w
  /\ _last_saved_time (snd (snd (evolveToTime t (w, d)))) = _last_saved_time d.
Proof.
  intros Hk. rewrite evolveToTime_calls.
  apply (calls_no_save _ (w, d)). exact Hk.
Qed.

(** X6: the checkpoint a step takes is one step behind.  When the
    interval has elapsed, in the test of source line 200 as the code
    computes it, and there is room, [iterateTimeStep] returns
    with [time] advanced by one, while the two files it wrote hold the
    scalars and the valid prefix of the state before the step. *)
Theorem iterateTimeStep_checkpoint_lags w d :
  time d < tMax d ->
  elapsed_exceeds (clock w (reads w)) (_last_saved_time d) (_save_interval d) = true ->
  exists s', iterateTimeStep (w, d) = (Return tt, s')
             /\ time (snd s') = time d + 1
             /\ fs (fst s') !! scalars_file_of d = Some [LJson (scalars_of d)]
             /\ fs (fst s') !! cdf_file_of d = Some (map LQuad (getSaveCDF d))
             /\ _last_saved_time (snd s') = clock w (S (reads w)).
Proof.
  intros Hroom Hlt. rewrite iterateTimeStep_eq.
  unfold before_check. rewrite saveState_eq, Hlt.
  simpl. rewrite checked_step_room by (simpl; lia).
  unfold super_iterateTimeStep; simpl.
  destruct (recurrence _ _ _ _) as [g c]; simpl.
  eexists; split; [reflexivity |]. simpl.
  repeat split; [apply saved_fs_scalars | apply saved_fs_cdf].
Qed.

(** ** Checkpoint files *)

Lemma str_int_inj z1 z2 : str_int z1 = str_int z2 -> z1 = z2.
Proof.
  unfold str_int. intros H. apply DecimalZ.to_int_inj.
  assert (Hisi : forall z, NilZero.int_of_string (NilZero.string_of_int (Z.to_int z))
                           = Some (Z.to_int z)).
  { intros z. apply NilZero.isi; destruct z; simpl; try discriminate;
      intros E; injection E; apply DecimalPos.Unsigned.to_uint_nonnil. }
  apply (f_equal NilZero.int_of_string) in H. rewrite !Hisi in H. congruence.
Qed.

Lemma string_length_app (a b : string) :
  String.length (a +:+ b) = (String.length a + String.length b)%nat.
Proof.
  induction a as [| c a IH]; [reflexivity |].
  change (S (String.length (a +:+ b)) = S (String.length a + String.length b)).
  now rewrite IH.
Qed.

Lemma string_app_inv_tail (x a : string) : forall b, a +:+ x = b +:+ x -> a = b.
Proof.
  induction a as [| c1 a IH]; intros [| c2 b] H.
  - reflexivity.
  - apply (f_equal String.length) in H. rewrite !string_length_app in H.
    simpl in H. lia.
  - apply (f_equal String.length) in H. rewrite !string_length_app in H.
    simpl in H. lia.
  - change (String c1 (a +:+ x) = String c2 (b +:+ x)) in H.
    injection H as -> H. f_equal. now apply IH.
Qed.

Lemma checkpoint_name_inj (pre suf dir x y : string) c :
  Ascii.eqb c "/" = false ->
  os_path_join dir (String c pre +:+ x +:+ suf)
  = os_path_join dir (String c pre +:+ y +:+ suf) ->
  x = y.
Proof.
  intros Hc H.
  change (String c pre +:+ x +:+ suf) with (String c (pre +:+ x +:+ suf)) in H.
  change (String c pre +:+ y +:+ suf) with (String c (pre +:+ y +:+ suf)) in H.
  rewrite !os_path_join_relative in H by assumption.
  apply String.app_inj in H.
  change (String c pre +:+ x +:+ suf = String c pre +:+ y +:+ suf) in H.
  apply String.app_inj in H. now apply string_app_inv_tail in H.
Qed.

(** X7: engines saving to the same directory under different integer ids
    never share a checkpoint file: their CDF files differ and their
    scalars files differ. *)
Theorem checkpoint_files_distinct_ids d1 d2 z1 z2 :
  save_dir d1 = save_dir d2 ->
  id d1 = Some (IdInt z1) ->
  id d2 = Some (IdInt z2) ->
  z1 <> z2 ->
  cdf_file_of d1 <> cdf_file_of d2 /\ scalars_file_of d1 <> scalars_file_of d2.
Proof.
  intros Hdir H1 H2 Hz. unfold cdf_file_of, scalars_file_of.
  rewrite Hdir, H1, H2. simpl.
  split; intros H; apply checkpoint_name_inj in H; try reflexivity;
    apply str_int_inj in H; contradiction.
Qed.

Lemma saved_fs_overwrites d1 d2 f :
  id d1 = id d2 -> save_dir d1 = save_dir d2 ->
  saved_fs d2 (saved_fs d1 f) = saved_fs d2 f.
Proof.
  intros Hi Hs. unfold saved_fs.
  assert (Hc : cdf_file_of d1 = cdf_file_of d2)
    by (unfold cdf_file_of; now rewrite Hi, Hs).
  assert (Hj : scalars_file_of d1 = scalars_file_of d2)
    by (unfold scalars_file_of; now rewrite Hi, Hs).
  rewrite Hc, Hj.
  rewrite (insert_insert_ne _ (cdf_file_of d2) (scalars_file_of d2))
    by apply checkpoint_files_differ.
  now rewrite !insert_insert_eq.
Qed.

(** X8: a checkpoint replaces the previous one.  Saving a state and then
    a later state of the same [id] and [save_dir] leaves the files that
    saving the later state alone leaves, and it changes no other file. *)
Theorem saveState_overwrites w d1 d2 :
  id d1 = id d2 ->
  save_dir d1 = save_dir d2 ->
  fs (fst (snd (saveState (fst (snd (saveState (w, d1))), d2))))
  = fs (fst (snd (saveState (w, d2))))
  /\ forall p, p <> cdf_file_of d2 -> p <> scalars_file_of d2 ->
               fs (fst (snd (saveState (w, d2)))) !! p = fs w !! p.
Proof.
  intros Hi Hs. rewrite !saveState_eq. simpl. split.
  - now apply saved_fs_overwrites.
  - intros p Hc Hj. unfold saved_fs. now rewrite !lookup_insert_ne by congruence.
Qed.

(** ** Loading *)

(** X9: when the scalars file is missing, or it holds a record and the
    CDF file is missing, [fromFiles] raises [FileNotFoundError] for the
    missing file, the scalars file first, and the world is as before: no
    object is built and the clock is not read. *)
Theorem fromFiles_missing_file w cf sf :
  fs w !! sf = None \/ ((exists vars, fs w !! sf = Some [LJson vars]) /\ fs w !! cf = None) ->
  fromFiles cf sf w
  = (Raise (FileNotFoundError (match fs w !! sf with None => sf | Some _ => cf end)), w).
Proof.
  unfold fromFiles, bind, json_load_from, loadArrayQuad.
  intros [-> | [[vars ->] ->]]; reflexivity.
Qed.

Lemma parse_quads_inv ls : forall vs, parse_quads ls = Some vs -> ls = map LQuad vs.
Proof.
  induction ls as [| [v | obj | cells] ls IH]; simpl; intros vs H; try discriminate.
  - injection H as <-. reflexivity.
  - destruct (parse_quads ls) as [vs' |]; [| discriminate].
    injection H as <-. simpl. f_equal. now apply IH.
Qed.

Lemma assign_prefix_length (S : Type) arr stop src (st st' : S) cdf :
  assign_prefix arr stop src st = (Return cdf, st') ->
  length cdf = length arr.
Proof.
  unfold assign_prefix.
  assert (Hm : (slice_stop (length arr) stop <= length arr)%nat).
  { unfold slice_stop. destruct (stop <? 0) eqn:E; [apply Z.ltb_lt in E |]; lia. }
  destruct (Nat.eqb_spec (length src) (slice_stop (length arr) stop)) as [E | _].
  - unfold ret. intros H. injection H as <- _.
    rewrite length_app, length_drop. lia.
  - destruct src as [| v [| v' src]]; try discriminate.
    unfold ret. intros H. injection H as <- _.
    rewrite length_app, length_replicate, length_drop. lia.
Qed.

(** X10: what a successful [fromFiles] guarantees, for a record whose
    [id] is null, an integer or a string and whose [save_dir] is a
    string, the values [saveState] writes; the model does not follow a
    load of another record to its end.  The object returned has [time],
    [tMax], [id] and [save_dir] as the record of the scalars file gives
    them, its array has length [tMax + 1], no file was
    written and the clock was read once. *)
Theorem fromFiles_returns w cf sf d w' :
  fromFiles cf sf w = (Return d, w') ->
  w' = tick w
  /\ length (CDF d) = Z.to_nat (tMax d + 1)
  /\ 0 <= tMax d + 1
  /\ exists vars vs,
       fs w !! sf = Some [LJson vars]
       /\ fs w !! cf = Some (map LQuad vs)
       /\ vars !! "time" = Some (JInt (time d))
       /\ vars !! "tMax" = Some (JInt (tMax d))
       /\ vars !! "id" = Some (json_of_id (id d))
       /\ vars !! "save_dir" = Some (JStr (save_dir d)).
Proof.
  unfold fromFiles, bind, json_load_from, loadArrayQuad, getitem, np_zeros.
  destruct (fs w !! sf) as [[| [v | vars | cells] [| l ls]] |] eqn:Hsf;
    try discriminate.
  destruct (fs w !! cf) as [ls |] eqn:Hcf; [| discriminate].
  destruct (parse_quads ls) as [vs |] eqn:Hp; [| discriminate].
  apply parse_quads_inv in Hp. subst ls.
  destruct (vars !! "tMax") as [[| tm | x | x] |] eqn:Hm; try discriminate.
  simpl. destruct (tm + 1 <? 0) eqn:Hneg; [discriminate |].
  apply Z.ltb_ge in Hneg. unfold ret at 1.
  destruct (vars !! "time") as [[| t | x | x] |] eqn:Ht; try discriminate.
  simpl.
  destruct (assign_prefix (replicate (Z.to_nat (tm + 1)) 0%Q) (t + 1) vs w)
    as [[cdf | e |] w1] eqn:Ha; [| discriminate..].
  pose proof (assign_prefix_length _ _ _ _ _ _ _ Ha) as Hlen.
  rewrite length_replicate in Hlen.
  assert (w1 = w) as ->.
  { unfold assign_prefix in Ha. destruct (Nat.eqb _ _); [now inversion Ha |].
    destruct vs as [| v [| v' vs]]; now inversion Ha. }
  destruct (vars !! "beta") as [[| b | b | b] |] eqn:Hb; try discriminate;
    simpl;
    (destruct (vars !! "id") as [[| i | i | i] |] eqn:Hi; try discriminate;
     simpl;
     (destruct (vars !! "save_dir") as [[| p | p | p] |] eqn:Hs; try discriminate;
      simpl; unfold ret; intros H; inversion H; subst; clear H; simpl;
      repeat split; try assumption; exists vars, vs; auto 10)).
Qed.

Lemma fromFiles_run w cf sf d0 vs :
  fs w !! sf = Some [LJson (scalars_of d0)] ->
  fs w !! cf = Some (map LQuad vs) ->
  0 <= tMax d0 + 1 ->
  fromFiles cf sf w =
  match assign_prefix (replicate (Z.to_nat (tMax d0 + 1)) 0%Q) (time d0 + 1) vs w with
  | (Return cdf, _) =>
      (Return {| beta := beta d0; time := time d0; tMax := tMax d0; CDF := cdf;
                 gen := rng_fresh; _last_saved_time := clock w (reads w);
                 _save_interval := 21600%float; id := id d0; save_dir := save_dir d0 |},
       tick w)
  | (Raise e, _) => (Raise e, w)
  | (OutOfModel, _) => (OutOfModel, w)
  end.
Proof.
  intros Hsf Hcf Hm.
  destruct (scalars_of_lookup d0) as (Lt & Lb & Lm & Li & Ls).
  unfold fromFiles, bind, json_load_from, loadArrayQuad, getitem.
  rewrite Hsf, Hcf, parse_quads_written, Lm, Lt, Lb, Li, Ls. simpl.
  rewrite as_id_json_of_id. unfold np_zeros, ret.
  destruct (tMax d0 + 1 <? 0) eqn:E; [apply Z.ltb_lt in E; lia | clear E].
  unfold assign_prefix.
  destruct (Nat.eqb _ _); [reflexivity |].
  destruct vs as [| v [| v' vs]]; reflexivity.
Qed.

(** X11: the only check [fromFiles] makes of the CDF file against the
    record is numpy's on the slice assignment.  The record is one the
    constructor accepts: [tMax] is positive and the array of [tMax + 1]
    values of 16 bytes is within the size numpy can index, [beta] is
    positive, and [time] is not negative.  With [m] the smaller of
    [time + 1] and [tMax + 1]: a file of [m] values is loaded into the
    cells [0 .. m - 1]; a file of a single value is accepted for any
    [time] and its value is copied into all [m] cells; any other length
    raises [ValueError].  The cells from [m] on are zero. *)
Theorem fromFiles_prefix_check w cf sf d0 vs :
  fs w !! sf = Some [LJson (scalars_of d0)] ->
  fs w !! cf = Some (map LQuad vs) ->
  0 <= time d0 ->
  0 < tMax d0 ->
  (tMax d0 + 1) * 16 < 2 ^ 63 ->
  (0 < beta d0)%Q ->
  let m := Z.to_nat (Z.min (time d0 + 1) (tMax d0 + 1)) in
  let zeros := replicate (Z.to_nat (tMax d0 + 1) - m) 0%Q in
  (length vs = m ->
   exists d, fst (fromFiles cf sf w) = Return d /\ CDF d = (vs ++ zeros)%list)
  /\ (forall v, vs = [v] ->
      exists d, fst (fromFiles cf sf w) = Return d
                /\ CDF d = (replicate m v ++ zeros)%list)
  /\ (length vs <> m -> length vs <> 1%nat ->
      fst (fromFiles cf sf w) = Raise (ValueError "could not broadcast input array")).
Proof.
  intros Hsf Hcf Ht Hm _ _ m zeros.
  rewrite (fromFiles_run w cf sf d0 vs) by (assumption || lia).
  unfold assign_prefix, slice_stop. rewrite length_replicate.
  destruct (time d0 + 1 <? 0) eqn:E; [apply Z.ltb_lt in E; lia | clear E].
  replace (Nat.min (Z.to_nat (time d0 + 1)) (Z.to_nat (tMax d0 + 1))) with m
    by (subst m; lia).
  rewrite drop_replicate. fold zeros.
  split; [| split].
  - intros Hlen. rewrite Hlen, Nat.eqb_refl. simpl. eauto.
  - intros v ->. simpl.
    destruct m as [| [| m']]; simpl; eauto.
  - intros H1 H2. destruct (Nat.eqb_spec (length vs) m) as [E | _]; [contradiction |].
    destruct vs as [| v [| v' vs]]; simpl in *; try reflexivity. contradiction.
Qed.

(** ** The batched quantile search *)

Lemma sort_descending_sorted qs :
  StronglySorted (fun a b => (b <= a)%Q) qs -> sort_descending qs = qs.
Proof.
  unfold sort_descending.
  induction 1 as [| x l _ IH Hx]; simpl; [reflexivity |].
  rewrite IH. destruct Hx as [| y l Hy _]; simpl; [reflexivity |].
  apply Qle_bool_iff in Hy. now rewrite Hy.
Qed.

(** X12: for quantiles given in descending order with
    [descending = True], [findQuantiles] returns the positions in the
    order of its input, each the result of [findQuantile]. *)
Theorem findQuantiles_descending_agrees d (quantiles : list quad) :
  StronglySorted (fun a b => (b <= a)%Q) quantiles ->
  Forall (fun q => (1 <= q)%Q) quantiles ->
  findQuantiles d quantiles true = map (findQuantile d) quantiles.
Proof.
  intros Hs Hq.
  unfold findQuantiles, super_findQuantiles, findQuantile, super_findQuantile.
  rewrite sort_descending_sorted by assumption.
  apply sweep_all_each; [assumption |].
  eapply Forall_impl; [exact Hq |]. intros q Hq1.
  eapply Qlt_le_trans; [| exact Hq1]. reflexivity.
Qed.

Lemma insert_by_In leb x l y : In y (insert_by leb x l) <-> y = x \/ In y l.
Proof.
  induction l as [| z l IH]; simpl; [intuition |].
  destruct (leb x z); simpl; [intuition |]. rewrite IH. intuition.
Qed.

Lemma sort_by_In leb l y : In y (sort_by leb l) <-> In y l.
Proof.
  induction l as [| x l IH]; simpl; [reflexivity |].
  rewrite insert_by_In, IH. intuition.
Qed.

Lemma insert_by_ascending x l :
  StronglySorted Qle l -> StronglySorted Qle (insert_by Qle_bool x l).
Proof.
  induction 1 as [| y l Hl IH Hy]; simpl; [repeat constructor |].
  destruct (Qle_bool x y) eqn:E.
  - apply Qle_bool_iff in E. constructor; [now constructor |].
    constructor; [assumption |].
    eapply Forall_impl; [exact Hy |]. intros z Hz. eapply Qle_trans; eassumption.
  - assert (Hyx : (y <= x)%Q).
    { apply Qlt_le_weak, Qnot_le_lt. intros H. apply Qle_bool_iff in H. congruence. }
    constructor; [assumption |].
    apply List.Forall_forall. intros z Hz. apply insert_by_In in Hz as [-> | Hz];
      [assumption |].
    rewrite List.Forall_forall in Hy. auto.
Qed.

Lemma sort_ascending_sorted qs : StronglySorted Qle (sort_ascending qs).
Proof.
  unfold sort_ascending. induction qs as [| x qs IH]; simpl; [constructor |].
  now apply insert_by_ascending.
Qed.

Lemma ascending_rev qs :
  StronglySorted Qle qs -> StronglySorted (fun a b => (b <= a)%Q) (rev qs).
Proof.
  induction 1 as [| x l _ IH Hx]; simpl; [constructor |].
  apply StronglySorted_app_2; [| assumption | repeat constructor].
  intros x1 x2 H1 H2. apply list_elem_of_In in H1. rewrite <- in_rev in H1.
  apply list_elem_of_singleton in H2 as ->.
  rewrite List.Forall_forall in Hx. auto.
Qed.

(** X13: the row [evolveAndSaveQuantile] writes for a time lists, after
    the time, the positions of the quantiles in ascending order of
    quantile, whatever the order the caller gave them in: the loop sorts
    them into descending order and calls [findQuantiles] without
    [descending], which reverses the result. *)
Theorem evolveAndSaveQuantile_row_ascending t f (qs qs' : list quad) s f' s' :
  Forall (fun q => (1 <= q)%Q) qs ->
  evolveAndSaveQuantile_body t (f, qs) s = (Return (f', qs'), s') ->
  StronglySorted Qle (sort_ascending qs)
  /\ (forall q, In q (sort_ascending qs) <-> In q qs)
  /\ qs' = rev (sort_ascending qs)
  /\ h_buf f'
     = (h_buf f
        ++ [LRow (CInt (time (snd s'))
                  :: map (fun q => CInt (findQuantile (snd s') q)) (sort_ascending qs))])%list.
Proof.
  intros Hq. unfold evolveAndSaveQuantile_body, bind, get.
  destruct (evolveToTime t s) as [[[] | e |] [w1 d1]]; simpl; [| discriminate..].
  unfold ret. intros H. inversion H; subst; clear H. simpl.
  split; [apply sort_ascending_sorted |].
  split; [intros q; apply sort_by_In |].
  split; [reflexivity |].
  do 3 f_equal.
  unfold findQuantiles, super_findQuantiles, findQuantile, super_findQuantile.
  rewrite sort_descending_sorted by apply ascending_rev, sort_ascending_sorted.
  rewrite sweep_all_each.
  - f_equal. rewrite (map_rev _ (sort_ascending qs)), rev_involutive.
    apply map_map.
  - apply ascending_rev, sort_ascending_sorted.
  - apply List.Forall_forall. intros q Hin. rewrite <- in_rev in Hin.
    apply sort_by_In in Hin. rewrite List.Forall_forall in Hq.
    eapply Qlt_le_trans; [| apply Hq, Hin]. reflexivity.
Qed.

(** ** What the CSV operations write *)

Lemma checkpoint_files_same d d' :
  id d' = id d -> save_dir d' = save_dir d ->
  cdf_file_of d' = cdf_file_of d /\ scalars_file_of d' = scalars_file_of d.
Proof. intros Hi Hs. unfold cdf_file_of, scalars_file_of. now rewrite Hi, Hs. Qed.

(** A step writes no file other than the two of the checkpoint. *)
Lemma iterateTimeStep_frame w d p :
  p <> cdf_file_of d -> p <> scalars_file_of d ->
  fs (fst (snd (iterateTimeStep (w, d)))) !! p = fs w !! p.
Proof.
  intros Hc Hj. rewrite iterateTimeStep_eq. unfold before_check.
  rewrite saveState_eq.
  assert (Hsaved : saved_fs d (fs w) !! p = fs w !! p).
  { unfold saved_fs. now rewrite !lookup_insert_ne by congruence. }
  destruct (elapsed_exceeds _ _ _); simpl.
  - destruct (Z_lt_le_dec (time d) (tMax d)) as [Hroom | Hfull].
    + rewrite checked_step_room by (simpl; lia).
      unfold super_iterateTimeStep; simpl.
      destruct (recurrence _ _ _ _) as [g c]; simpl. assumption.
    + rewrite checked_step_full by (simpl; lia). simpl. assumption.
  - destruct (Z_lt_le_dec (time d) (tMax d)) as [Hroom | Hfull].
    + rewrite checked_step_room by assumption.
      unfold super_iterateTimeStep; simpl.
      destruct (recurrence _ _ _ _) as [g c]; simpl. reflexivity.
    + rewrite checked_step_full by assumption. reflexivity.
Qed.

Lemma calls_frame n p : forall s,
  p <> cdf_file_of (snd s) -> p <> scalars_file_of (snd s) ->
  fs (fst (snd (calls n iterateTimeStep s))) !! p = fs (fst s) !! p
  /\ id (snd (snd (calls n iterateTimeStep s))) = id (snd s)
  /\ save_dir (snd (snd (calls n iterateTimeStep s))) = save_dir (snd s).
Proof.
  induction n as [| n IH]; intros s Hc Hj; simpl; [auto |].
  destruct s as [w d]; simpl in *.
  pose proof (iterateTimeStep_frame w d p Hc Hj) as Hfs.
  destruct (iterateTimeStep_keeps w d) as (_ & _ & Hi & Hs & _).
  unfold bind.
  destruct (iterateTimeStep (w, d)) as [[[] | e |] [w1 d1]]; simpl in *; [| auto..].
  destruct (checkpoint_files_same d d1 Hi Hs) as (Ec & Ej).
  destruct (IH (w1, d1)) as (Hfs' & Hi' & Hs'); simpl; [congruence.. |].
  rewrite Hfs', Hi', Hs'. auto.
Qed.

Lemma evolveToTime_frame t s p :
  p <> cdf_file_of (snd s) -> p <> scalars_file_of (snd s) ->
  fs (fst (snd (evolveToTime t s))) !! p = fs (fst s) !! p
  /\ id (snd (snd (evolveToTime t s))) = id (snd s)
  /\ save_dir (snd (snd (evolveToTime t s))) = save_dir (snd s).
Proof. rewrite evolveToTime_calls. apply calls_frame. Qed.

(** The lines a loop adds to a file, flushed or still buffered: one per
    iteration. *)
Lemma for_fold_rows {L} (hd : L -> handle) (file : string)
    (body : Z -> L -> M (St K) L) (d0 : DiffusionTimeCDF K) :
  (forall t l s l' s',
     body t l s = (Return l', s') ->
     h_path (hd l) = file -> id (snd s) = id d0 -> save_dir (snd s) = save_dir d0 ->
     h_path (hd l') = file /\ id (snd s') = id d0 /\ save_dir (snd s') = save_dir d0
     /\ exists row,
          (default [] (fs (fst s') !! file) ++ h_buf (hd l'))%list
          = (default [] (fs (fst s) !! file) ++ h_buf (hd l) ++ [LRow row])%list) ->
  forall ts l s l' s',
    for_fold ts body l s = (Return l', s') ->
    h_path (hd l) = file -> id (snd s) = id d0 -> save_dir (snd s) = save_dir d0 ->
    h_path (hd l') = file
    /\ exists rows,
         length rows = length ts
         /\ (default [] (fs (fst s') !! file) ++ h_buf (hd l'))%list
            = (default [] (fs (fst s) !! file) ++ h_buf (hd l) ++ map LRow rows)%list.
Proof.
  intros Hbody ts. induction ts as [| t ts IH]; intros l s l' s' H Hp Hi Hs; simpl in H.
  - unfold ret in H. injection H as <- <-. split; [assumption |]. exists []. simpl.
    now rewrite app_nil_r.
  - unfold bind in H. destruct (body t l s) as [[l1 | e |] s1] eqn:E; [| discriminate..].
    destruct (Hbody _ _ _ _ _ E Hp Hi Hs) as (Hp1 & Hi1 & Hs1 & row & Hrow).
    destruct (IH _ _ _ _ H Hp1 Hi1 Hs1) as (Hp' & rows & Hlen & Hrows).
    split; [assumption |]. exists (row :: rows). simpl. split; [now f_equal |].
    rewrite Hrows, app_assoc, Hrow. now rewrite <- !app_assoc.
Qed.

Lemma flush_rows (f : handle) w :
  fs (snd (flush f w)) !! h_path f
  = Some (default [] (fs w !! h_path f) ++ h_buf f)%list.
Proof. unfold flush; simpl. apply lookup_insert_eq. Qed.

Lemma evolveAndGetVariance_body_rows nParticles file d0 :
  file <> cdf_file_of d0 -> file <> scalars_file_of d0 ->
  forall t f s f' s',
    evolveAndGetVariance_body nParticles t f s = (Return f', s') ->
    h_path f = file -> id (snd s) = id d0 -> save_dir (snd s) = save_dir d0 ->
    h_path f' = file /\ id (snd s') = id d0 /\ save_dir (snd s') = save_dir d0
    /\ exists row,
         (default [] (fs (fst s') !! file) ++ h_buf f')%list
         = (default [] (fs (fst s) !! file) ++ h_buf f ++ [LRow row])%list.
Proof.
  intros Hc Hj t f s f' s' H Hp Hi Hs.
  destruct (checkpoint_files_same d0 (snd s) Hi Hs) as (Ec & Ej).
  destruct (evolveToTime_frame t s file) as (Hfs & Hi1 & Hs1); [congruence.. |].
  unfold evolveAndGetVariance_body, bind, get, in_world, flush in H.
  destruct (evolveToTime t s) as [[[] | e |] [w1 d1]]; simpl in *; [| discriminate..].
  inversion H; subst; clear H. simpl.
  repeat split; [congruence.. |].
  eexists. rewrite lookup_insert_eq. simpl. rewrite app_nil_r, Hfs.
  rewrite <- ?app_assoc. reflexivity.
Qed.

(** X14: a run of [evolveAndGetVariance] that returns has appended to the
    file, after what it held, the header unless [append] is set and then
    one row per requested time; the file is not one of the checkpoint
    files. *)
Theorem evolveAndGetVariance_writes times nParticles file append w d s' :
  file <> cdf_file_of d -> file <> scalars_file_of d ->
  evolveAndGetVariance times nParticles file append (w, d) = (Return tt, s') ->
  exists rows,
    length rows = length times
    /\ fs (fst s') !! file
       = Some (default [] (fs w !! file)
               ++ (if append then []
                   else [LRow ([CStr "time"] ++ map (CLabel "") nParticles
                               ++ map (CLabel "var") nParticles)])
               ++ map LRow rows)%list.
Proof.
  intros Hc Hj. unfold evolveAndGetVariance, bind at 1.
  destruct (evolveAndGetVariance_open nParticles file append (w, d))
    as [[f0 | e |] s0] eqn:Eo; [| discriminate..].
  unfold bind at 1.
  destruct (for_fold times (evolveAndGetVariance_body nParticles) f0 s0)
    as [[f1 | e |] s1] eqn:El; [| discriminate..].
  assert (Hopen : h_path f0 = file /\ snd s0 = d
                  /\ (default [] (fs (fst s0) !! file) ++ h_buf f0)%list
                     = (default [] (fs w !! file)
                        ++ (if append then []
                            else [LRow ([CStr "time"] ++ map (CLabel "") nParticles
                                        ++ map (CLabel "var") nParticles)]))%list).
  { unfold evolveAndGetVariance_open, bind, in_world, open_append, flush, ret in Eo.
    simpl in Eo. destruct append; simpl in Eo; inversion Eo; subst; clear Eo; simpl;
      rewrite !lookup_insert_eq; simpl; repeat split; now rewrite ?app_nil_r. }
  destruct Hopen as (Hp0 & Hd0 & Hpend0).
  destruct (for_fold_rows (fun f => f) file (evolveAndGetVariance_body nParticles) d
              (evolveAndGetVariance_body_rows nParticles file d Hc Hj)
              times f0 s0 f1 s1 El Hp0)
    as (Hp1 & rows & Hlen & Hrows); [now rewrite Hd0.. |].
  unfold in_world, close, bind. intros H.
  pose proof (flush_rows f1 (fst s1)) as Hfl.
  destruct (flush f1 (fst s1)) as [[f2 | e |] w2]; [| discriminate..].
  simpl in H, Hfl. injection H as <-. simpl.
  exists rows. split; [assumption |].
  rewrite Hp1 in Hfl. rewrite Hfl, Hrows, app_assoc, Hpend0.
  now rewrite <- app_assoc.
Qed.

Lemma evolveAndSaveQuantile_body_rows file d0 :
  file <> cdf_file_of d0 -> file <> scalars_file_of d0 ->
  forall t (l : handle * list quad) s l' s',
    evolveAndSaveQuantile_body t l s = (Return l', s') ->
    h_path (fst l) = file -> id (snd s) = id d0 -> save_dir (snd s) = save_dir d0 ->
    h_path (fst l') = file /\ id (snd s') = id d0 /\ save_dir (snd s') = save_dir d0
    /\ exists row,
         (default [] (fs (fst s') !! file) ++ h_buf (fst l'))%list
         = (default [] (fs (fst s) !! file) ++ h_buf (fst l) ++ [LRow row])%list.
Proof.
  intros Hc Hj t [f qs] s l' s' H Hp Hi Hs. simpl in Hp.
  destruct (checkpoint_files_same d0 (snd s) Hi Hs) as (Ec & Ej).
  destruct (evolveToTime_frame t s file) as (Hfs & Hi1 & Hs1); [congruence.. |].
  unfold evolveAndSaveQuantile_body, bind, get, ret in H.
  destruct (evolveToTime t s) as [[[] | e |] [w1 d1]]; simpl in *; [| discriminate..].
  injection H as <- <-. simpl.
  repeat split; [congruence.. |].
  eexists. rewrite Hfs. reflexivity.
Qed.

(** X15: a run of [evolveAndSaveQuantile] that returns has appended to
    the file, after what it held, the header unless [append] is set and
    then one row per requested time; the file is not one of the
    checkpoint files. *)
Theorem evolveAndSaveQuantile_writes times quantiles file append w d s' :
  file <> cdf_file_of d -> file <> scalars_file_of d ->
  evolveAndSaveQuantile times quantiles file append (w, d) = (Return tt, s') ->
  exists rows,
    length rows = length times
    /\ fs (fst s') !! file
       = Some (default [] (fs w !! file)
               ++ (if append then []
                   else [LRow ([CStr "time"] ++ map (CLabel "") quantiles)])
               ++ map LRow rows)%list.
Proof.
  intros Hc Hj. unfold evolveAndSaveQuantile, bind at 1.
  destruct (evolveAndSaveQuantile_open quantiles file append (w, d))
    as [[f0 | e |] s0] eqn:Eo; [| discriminate..].
  unfold bind at 1.
  destruct (for_fold times evolveAndSaveQuantile_body (f0, quantiles) s0)
    as [[[f1 qs1] | e |] s1] eqn:El; [| discriminate..].
  assert (Hopen : h_path f0 = file /\ snd s0 = d
                  /\ (default [] (fs (fst s0) !! file) ++ h_buf f0)%list
                     = (default [] (fs w !! file)
                        ++ (if append then []
                            else [LRow ([CStr "time"] ++ map (CLabel "") quantiles)]))%list).
  { unfold evolveAndSaveQuantile_open, bind, in_world, open_append, ret in Eo.
    simpl in Eo. destruct append; simpl in Eo; injection Eo as <- <-; simpl;
      rewrite !lookup_insert_eq; simpl; repeat split. }
  destruct Hopen as (Hp0 & Hd0 & Hpend0).
  destruct (for_fold_rows fst file evolveAndSaveQuantile_body d
              (evolveAndSaveQuantile_body_rows file d Hc Hj)
              times (f0, quantiles) s0 (f1, qs1) s1 El Hp0)
    as (Hp1 & rows & Hlen & Hrows); [now rewrite Hd0.. |].
  simpl in Hp1, Hrows.
  unfold in_world, close, bind. intros H.
  pose proof (flush_rows f1 (fst s1)) as Hfl.
  destruct (flush f1 (fst s1)) as [[f2 | e |] w2]; [| discriminate..].
  simpl in H, Hfl. injection H as <-. simpl.
  exists rows. split; [assumption |].
  rewrite Hp1 in Hfl. rewrite Hfl, Hrows, app_assoc, Hpend0.
  now rewrite <- app_assoc.
Qed.

Lemma evolveAndGetProbAndV_body_rows quantile file d0 :
  file <> cdf_file_of d0 -> file <> scalars_file_of d0 ->
  forall t f s f' s',
    evolveAndGetProbAndV_body quantile t f s = (Return f', s') ->
    h_path f = file -> id (snd s) = id d0 -> save_dir (snd s) = save_dir d0 ->
    h_path f' = file /\ id (snd s') = id d0 /\ save_dir (snd s') = save_dir d0
    /\ exists row,
         (default [] (fs (fst s') !! file) ++ h_buf f')%list
         = (default [] (fs (fst s) !! file) ++ h_buf f ++ [LRow row])%list.
Proof.
  intros Hc Hj t f s f' s' H Hp Hi Hs.
  destruct (checkpoint_files_same d0 (snd s) Hi Hs) as (Ec & Ej).
  destruct (evolveToTime_frame t s file) as (Hfs & Hi1 & Hs1); [congruence.. |].
  unfold evolveAndGetProbAndV_body, bind, get, in_world, flush in H.
  destruct (evolveToTime t s) as [[[] | e |] [w1 d1]]; simpl in *; [| discriminate..].
  destruct (getProbandV d1 quantile) as [prob v].
  injection H as <- <-. simpl.
  repeat split; [congruence.. |].
  eexists. rewrite Hp, lookup_insert_eq. simpl. rewrite app_nil_r, Hfs.
  rewrite <- ?app_assoc. reflexivity.
Qed.

(** X16: a run of [evolveAndGetProbAndV] that returns has appended to
    the file the header [time, prob, v], also when the file already held
    lines, and then one row per requested time. *)
Theorem evolveAndGetProbAndV_writes quantile times save_file w d s' :
  save_file <> cdf_file_of d -> save_file <> scalars_file_of d ->
  evolveAndGetProbAndV quantile times save_file (w, d) = (Return tt, s') ->
  exists rows,
    length rows = length times
    /\ fs (fst s') !! save_file
       = Some (default [] (fs w !! save_file)
               ++ [LRow [CStr "time"; CStr "prob"; CStr "v"]]
               ++ map LRow rows)%list.
Proof.
  intros Hc Hj. unfold evolveAndGetProbAndV, bind at 1.
  destruct (evolveAndGetProbAndV_open quantile save_file (w, d))
    as [[f0 | e |] s0] eqn:Eo; [| discriminate..].
  unfold bind at 1.
  destruct (for_fold times (evolveAndGetProbAndV_body quantile) f0 s0)
    as [[f1 | e |] s1] eqn:El; [| discriminate..].
  assert (Hopen : h_path f0 = save_file /\ snd s0 = d
                  /\ (default [] (fs (fst s0) !! save_file) ++ h_buf f0)%list
                     = (default [] (fs w !! save_file)
                        ++ [LRow [CStr "time"; CStr "prob"; CStr "v"]])%list).
  { unfold evolveAndGetProbAndV_open, bind, in_world, open_append, ret, raise in Eo.
    simpl in Eo. destruct (Qle_bool 1 quantile); [| discriminate].
    injection Eo as <- <-; simpl. rewrite !lookup_insert_eq; simpl; repeat split. }
  destruct Hopen as (Hp0 & Hd0 & Hpend0).
  destruct (for_fold_rows (fun f => f) save_file (evolveAndGetProbAndV_body quantile) d
              (evolveAndGetProbAndV_body_rows quantile save_file d Hc Hj)
              times f0 s0 f1 s1 El Hp0)
    as (Hp1 & rows & Hlen & Hrows); [now rewrite Hd0.. |].
  unfold in_world, close, bind. intros H.
  pose proof (flush_rows f1 (fst s1)) as Hfl.
  destruct (flush f1 (fst s1)) as [[f2 | e |] w2]; [| discriminate..].
  simpl in H, Hfl. injection H as <-. simpl.
  exists rows. split; [assumption |].
  rewrite Hp1 in Hfl. rewrite Hfl, Hrows, app_assoc, Hpend0.
  now rewrite <- app_assoc.
Qed.

(** X17: [evolveAndGetProbAndV] with a quantile below 1 fails its
    assertion before it opens the file: it raises [AssertionError] and
    the files, the clock and the engine are as before. *)
Theorem evolveAndGetProbAndV_rejects quantile times save_file s :
  (quantile < 1)%Q ->
  evolveAndGetProbAndV quantile times save_file s = (Raise AssertionError, s).
Proof.
  intros Hlt. unfold evolveAndGetProbAndV, evolveAndGetProbAndV_open, bind.
  destruct (Qle_bool 1 quantile) eqn:E; [| reflexivity].
  apply Qle_bool_iff in E. exfalso. eapply Qlt_not_le; eassumption.
Qed.

(** X18: a row reports the time the engine is at, not the time asked
    for.  For a requested time within capacity an iteration of
    [evolveAndGetProbAndV] returns with the engine at the larger of its
    old time and the requested one, and the row it flushed holds that
    time and the statistics of the state reached. *)
Theorem evolveAndGetProbAndV_row quantile t f w d :
  t <= tMax d ->
  exists f' s',
    evolveAndGetProbAndV_body quantile t f (w, d) = (Return f', s')
    /\ time (snd s') = Z.max (time d) t
    /\ h_buf f' = []
    /\ exists before,
         fs (fst s') !! h_path f
         = Some (before ++ h_buf f
                 ++ [LRow [CInt (Z.max (time d) t);
                           CQuad (fst (getProbandV (snd s') quantile));
                           CFloat (snd (getProbandV (snd s') quantile))]])%list.
Proof.
  intros Ht.
  destruct (evolveToTime_within w d t Ht) as ([w1 d1] & E & Ht1 & _).
  simpl in Ht1.
  unfold evolveAndGetProbAndV_body, bind, get, in_world, flush. rewrite E. simpl.
  destruct (getProbandV d1 quantile) as [prob v] eqn:Epv. simpl.
  do 2 eexists. split; [reflexivity |]. simpl.
  split; [assumption |]. split; [reflexivity |].
  rewrite lookup_insert_eq, Epv, Ht1. simpl. eauto.
Qed.

(** ** The capacity invariant *)

Lemma calls_bounds n : forall s,
  time (snd s) <= tMax (snd s) ->
  time (snd s) <= time (snd (snd (calls n iterateTimeStep s))) <= tMax (snd s)
  /\ tMax (snd (snd (calls n iterateTimeStep s))) = tMax (snd s).
Proof.
  induction n as [| n IH]; intros s Hle; simpl; [lia |].
  unfold bind.
  destruct (iterateTimeStep_cases s)
    as [(Hroom & s1 & -> & Ht1 & Hm1) | (_ & s1 & -> & Ht1 & Hm1 & _)].
  - destruct (IH s1) as (Hb & Hm); [lia |]. lia.
  - simpl. lia.
Qed.

(** X19: evolving keeps [time <= tMax].  From a state within capacity,
    [evolveToTime], whatever its target and whether it returns or
    raises, leaves [time] no smaller than it was and no larger than
    [tMax], and leaves [tMax] alone. *)
Theorem evolveToTime_keeps_capacity w d t :
  time d <= tMax d ->
  time d <= time (snd (snd (evolveToTime t (w, d)))) <= tMax d
  /\ tMax (snd (snd (evolveToTime t (w, d)))) = tMax d.
Proof.
  intros Hle. rewrite evolveToTime_calls.
  apply (calls_bounds _ (w, d)). exact Hle.
Qed.

(** ** Comparing a reloaded engine *)

Lemma id_eqb_refl i : id_eqb i i = true.
Proof.
  destruct i as [[z | x] |]; simpl;
    [apply Z.eqb_refl | apply String.eqb_refl | reflexivity].
Qed.

Lemma all_equal_padded (z : Q) (c : list quad) : forall m,
  forallb (fun xy => Qeq_bool (fst xy) (snd xy))
    (combine (take m c ++ replicate (length c - m) z) c)
  = forallb (fun y => Qeq_bool z y) (drop m c).
Proof.
  induction c as [| x c IH]; intros m; [now destruct m |].
  destruct m as [| m]; simpl.
  - f_equal. specialize (IH O). simpl in IH.
    now rewrite Nat.sub_0_r in IH.
  - rewrite Qeq_bool_refl. apply IH.
Qed.

(** X20: under [==] an engine reloaded from its checkpoint equals the
    saved one exactly when the saved one has zero in every cell past
    [time]: the scalars agree, the generator and the clock fields are
    not compared, and the reloaded array is zero there. *)
Theorem reload_equals_original (mismatch : outcome bool) w d d' :
  0 <= time d <= tMax d ->
  length (CDF d) = Z.to_nat (tMax d + 1) ->
  fst (fromFiles (cdf_file_of d) (scalars_file_of d) (fst (snd (saveState (w, d)))))
  = Return d' ->
  __eq__ mismatch d' (PyEngine d)
  = Return (forallb (fun y => Qeq_bool 0 y) (drop (Z.to_nat (time d + 1)) (CDF d))).
Proof.
  intros Ht Hlen. rewrite saveState_eq. simpl.
  rewrite fromFiles_saved; try assumption;
    [| apply saved_fs_cdf | apply saved_fs_scalars].
  simpl. intros H. injection H as <-.
  unfold __eq__; simpl.
  rewrite id_eqb_refl, String.eqb_refl, Qeq_bool_refl, Z.eqb_refl, Z.eqb_refl.
  simpl. unfold np_all_equal.
  assert (Hl : length (getSaveCDF d) = Z.to_nat (time d + 1)).
  { unfold getSaveCDF. rewrite length_take. lia. }
  rewrite length_app, Hl, length_drop, length_replicate.
  replace (Z.to_nat (time d + 1) + (Z.to_nat (tMax d + 1) - Z.to_nat (time d + 1)))%nat
    with (length (CDF d)) by lia.
  rewrite Nat.eqb_refl, drop_replicate. rewrite <- Hlen.
  unfold getSaveCDF. rewrite all_equal_padded.
  now destruct (forallb _ _).
Qed.

End Further.

(** * Concrete runs of the further properties *)

Lemma evolveToTime_reaches_witness :
  exists s', evolveToTime 2 (sample_world 0, sample_engine 0 None) = (Return tt, s')
             /\ time (snd s') = 2.
Proof.
  destruct (evolveToTime_reaches (K:=sample_kernel)
              (sample_world 0) (sample_engine 0 None) 2)
    as (s' & E & Ht & _); [simpl; lia |].
  exists s'. split; [exact E | exact Ht].
Defined.

Lemma evolveToTime_beyond_tMax_witness :
  fst (evolveToTime 5 (sample_world 0, sample_engine 0 None))
  = Raise (ValueError "Cannot evolve to time greater than tMax: 2")
  /\ time (snd (snd (evolveToTime 5 (sample_world 0, sample_engine 0 None)))) = 2.
Proof.
  destruct (evolveToTime_beyond_tMax (K:=sample_kernel)
              (sample_world 0) (sample_engine 0 None) 5)
    as (s1 & _ & Hr & Ht & _); [simpl; lia | simpl; lia |].
  split; [exact Hr | exact Ht].
Defined.

Lemma evolveToTime_compose_witness :
  bind (evolveToTime 1) (fun _ => evolveToTime 2) (sample_world 0, sample_engine 0 None)
  = evolveToTime 2 (sample_world 0, sample_engine 0 None).
Proof.
  apply (evolveToTime_compose (K:=sample_kernel)). simpl; lia.
Defined.

Lemma evolveToTime_no_checkpoint_witness :
  fs (fst (snd (evolveToTime 2 (frozen_world, sample_engine 0 None)))) = ∅.
Proof.
  apply (evolveToTime_no_checkpoint (K:=sample_kernel)
           frozen_world (sample_engine 0 None) 2).
  intros k. reflexivity.
Defined.

Lemma iterateTimeStep_checkpoint_lags_witness :
  exists s',
    iterateTimeStep (sample_world 30000, sample_engine 1 (Some (IdInt 7))) = (Return tt, s')
    /\ time (snd s') = 2
    /\ fs (fst s') !! "./Scalars7.json"
       = Some [LJson (scalars_of (sample_engine 1 (Some (IdInt 7))))].
Proof.
  destruct (iterateTimeStep_checkpoint_lags (K:=sample_kernel)
              (sample_world 30000) (sample_engine 1 (Some (IdInt 7))))
    as (s' & E & Ht & Hs & _); [simpl; lia | reflexivity |].
  exists s'. repeat split; [exact E | exact Ht | exact Hs].
Defined.

Lemma checkpoint_files_distinct_ids_witness :
  cdf_file_of (sample_engine 1 (Some (IdInt 7))) <> cdf_file_of (sample_engine 1 (Some (IdInt 8)))
  /\ scalars_file_of (sample_engine 1 (Some (IdInt 7)))
     <> scalars_file_of (sample_engine 1 (Some (IdInt 8))).
Proof.
  apply (checkpoint_files_distinct_ids (K:=sample_kernel) _ _ 7 8);
    [reflexivity | reflexivity | reflexivity | discriminate].
Defined.

Lemma saveState_overwrites_witness :
  fs (fst (snd (saveState (fst (snd (saveState (sample_world 0,
                                                 sample_engine 1 (Some (IdInt 7))))),
                           sample_engine 2 (Some (IdInt 7))))))
  = fs (fst (snd (saveState (sample_world 0, sample_engine 2 (Some (IdInt 7)))))).
Proof.
  apply (saveState_overwrites (K:=sample_kernel)); reflexivity.
Defined.

Lemma fromFiles_missing_file_witness :
  fromFiles (K:=sample_kernel) "c.txt" "s.json" (sample_world 0)
  = (Raise (FileNotFoundError "s.json"), sample_world 0).
Proof.
  apply (fromFiles_missing_file (K:=sample_kernel) (sample_world 0) "c.txt" "s.json").
  left. reflexivity.
Defined.

Lemma fromFiles_returns_witness :
  exists (d : DiffusionTimeCDF sample_kernel) w',
    fromFiles "c.txt" "s.json" single_value_world = (Return d, w')
    /\ length (CDF d) = 3%nat /\ w' = tick single_value_world.
Proof.
  do 2 eexists.
  match goal with
  | |- ?E /\ _ => assert (HE : E) by (vm_compute; reflexivity)
  end.
  split; [exact HE |].
  destruct (fromFiles_returns (K:=sample_kernel) _ _ _ _ _ HE) as (Hw & Hl & _).
  split; [exact Hl | exact Hw].
Defined.

(** A record whose [id] is a float is loaded by the code, which assigns
    the value as it is; the model stops there and raises nothing. *)
Example fromFiles_float_id :
  fst (fromFiles (K:=sample_kernel) "c.txt" "s.json" float_id_world) = OutOfModel.
Proof. vm_compute. reflexivity. Qed.

Lemma fromFiles_prefix_check_witness :
  exists d : DiffusionTimeCDF sample_kernel,
    fst (fromFiles "c.txt" "s.json" single_value_world) = Return d
    /\ CDF d = [5; 5; 5]%Q.
Proof.
  destruct (fromFiles_prefix_check (K:=sample_kernel) single_value_world
              "c.txt" "s.json" (sample_engine 2 None) [5%Q])
    as (_ & Hone & _);
    [reflexivity | reflexivity | simpl; lia | simpl; lia | simpl; lia | reflexivity |].
  destruct (Hone 5%Q eq_refl) as (d & E & Hc).
  exists d. split; [exact E | exact Hc].
Defined.

Lemma findQuantiles_descending_agrees_witness :
  findQuantiles (sample_engine 2 None) [5; 3; 2]%Q true
  = map (findQuantile (sample_engine 2 None)) [5; 3; 2]%Q.
Proof.
  apply (findQuantiles_descending_agrees (K:=sample_kernel)).
  - repeat (constructor; try discriminate).
  - repeat (constructor; try discriminate).
Defined.

Lemma evolveAndSaveQuantile_row_ascending_witness :
  exists f' qs' s',
    evolveAndSaveQuantile_body 1 ({| h_path := "q.csv"; h_buf := [] |}, [5; 2; 3]%Q)
      (sample_world 0, sample_engine 2 None)
    = (Return (f', qs'), s')
    /\ qs' = [5; 3; 2]%Q
    /\ h_buf f' = [LRow [CInt 2; CInt 0; CInt 2; CInt 4]].
Proof.
  do 3 eexists.
  match goal with
  | |- ?E /\ _ => assert (HE : E) by (vm_compute; reflexivity)
  end.
  split; [exact HE |].
  assert (Hall : Forall (fun q => (1 <= q)%Q) [5; 2; 3]%Q)
    by (repeat (constructor; try discriminate)).
  destruct (evolveAndSaveQuantile_row_ascending (K:=sample_kernel)
              1 _ [5; 2; 3]%Q _ _ _ _ Hall HE)
    as (_ & _ & Hq & Hb).
  split; [exact Hq | exact Hb].
Defined.

Lemma evolveAndGetVariance_writes_witness :
  exists rows,
    length rows = 2%nat
    /\ fs (fst (snd (evolveAndGetVariance [1; 2] [2%Q] "var.csv" false
                       (sample_world 0, sample_engine 0 None)))) !! "var.csv"
       = Some ([LRow [CStr "time"; CLabel "" 2; CLabel "var" 2]] ++ map LRow rows)%list.
Proof.
  apply (evolveAndGetVariance_writes (K:=sample_kernel) [1; 2] [2%Q] "var.csv" false
           (sample_world 0) (sample_engine 0 None));
    [vm_compute; discriminate | vm_compute; discriminate | vm_compute; reflexivity].
Defined.

Lemma evolveAndSaveQuantile_writes_witness :
  exists rows,
    length rows = 2%nat
    /\ fs (fst (snd (evolveAndSaveQuantile [1; 2] [2%Q] "q.csv" false
                       (sample_world 0, sample_engine 0 None)))) !! "q.csv"
       = Some ([LRow [CStr "time"; CLabel "" 2]] ++ map LRow rows)%list.
Proof.
  apply (evolveAndSaveQuantile_writes (K:=sample_kernel) [1; 2] [2%Q] "q.csv" false
           (sample_world 0) (sample_engine 0 None));
    [vm_compute; discriminate | vm_compute; discriminate | vm_compute; reflexivity].
Defined.

Lemma evolveAndGetProbAndV_writes_witness :
  exists rows,
    length rows = 2%nat
    /\ fs (fst (snd (evolveAndGetProbAndV 2 [1; 2] "pv.csv"
                       (sample_world 0, sample_engine 0 None)))) !! "pv.csv"
       = Some ([LRow [CStr "time"; CStr "prob"; CStr "v"]] ++ map LRow rows)%list.
Proof.
  apply (evolveAndGetProbAndV_writes (K:=sample_kernel) 2 [1; 2] "pv.csv"
           (sample_world 0) (sample_engine 0 None));
    [vm_compute; discriminate | vm_compute; discriminate | vm_compute; reflexivity].
Defined.

Lemma evolveAndGetProbAndV_rejects_witness :
  evolveAndGetProbAndV (1 # 2) [1; 2] "pv.csv" (sample_world 0, sample_engine 0 None)
  = (Raise AssertionError, (sample_world 0, sample_engine 0 None)).
Proof.
  apply (evolveAndGetProbAndV_rejects (K:=sample_kernel)). reflexivity.
Defined.

Lemma evolveAndGetProbAndV_row_witness :
  exists f' s',
    evolveAndGetProbAndV_body 2 1 {| h_path := "pv.csv"; h_buf := [] |}
      (sample_world 0, sample_engine 2 None)
    = (Return f', s')
    /\ time (snd s') = 2.
Proof.
  destruct (evolveAndGetProbAndV_row (K:=sample_kernel) 2 1
              {| h_path := "pv.csv"; h_buf := [] |}
              (sample_world 0) (sample_engine 2 None))
    as (f' & s' & E & Ht & _); [simpl; lia |].
  exists f', s'. split; [exact E | exact Ht].
Defined.

Lemma evolveToTime_keeps_capacity_witness :
  time (snd (snd (evolveToTime 5 (sample_world 0, sample_engine 1 None)))) <= 2.
Proof.
  destruct (evolveToTime_keeps_capacity (K:=sample_kernel)
              (sample_world 0) (sample_engine 1 None) 5)
    as ((_ & Hle) & _); [simpl; lia |].
  exact Hle.
Defined.

Lemma reload_equals_original_witness :
  exists d' : DiffusionTimeCDF sample_kernel,
    fst (fromFiles "./CDF7.txt" "./Scalars7.json"
           (fst (snd (saveState (sample_world 0, sample_engine 1 (Some (IdInt 7)))))))
    = Return d'
    /\ __eq__ (Return false) d' (PyEngine (sample_engine 1 (Some (IdInt 7))))
       = Return false.
Proof.
  eexists.
  match goal with
  | |- ?E /\ _ => assert (HE : E) by (vm_compute; reflexivity)
  end.
  split; [exact HE |].
  apply (reload_equals_original (K:=sample_kernel) (Return false)
           (sample_world 0) (sample_engine 1 (Some (IdInt 7))));
    [simpl; lia | reflexivity | exact HE].
Defined.
